(** * walktour: offsets, update decisions and the keyboard focus trap

    A shallow embedding of [src/utils/offset.ts] and [src/utils/tour.ts].

    Conventions of the embedding.
    - A value that may be [undefined] at run time is an [option]; a test
      [if (v)] or [!v] on an object reference is a test for [Some].
    - A call that may throw returns a [Result]; reading a property of, or
      calling a method on, [undefined] throws (a TypeError).
    - A JavaScript [number] is an IEEE 754 binary64 value, Rocq's primitive
      [float].  The arithmetic of [offset.ts] is written over the class
      [Number]; its instance [float_Number] is the arithmetic the program
      runs with, and every statement about values is made at that instance.
    - A DOM node is its identity, a [nat].
    - An [async] function never throws: a call runs its body up to the
      first [await] and returns a promise, and the rest of the body runs
      later, on the page as it is then ([Async]).
    - The window's timers and listeners are explicit state ([Window],
      [WindowEvents]).
    - The helpers imported from [./dom], [./positioning], [./viewport] and
      [./constants] are not part of the two files; they are Variables of the
      Sections below.  They receive the caller's possibly-[undefined]
      arguments as they are, and either throw or return a value of their
      declared type. *)

From Stdlib Require Import List Bool String Arith ZArith Floats Lia.
Import ListNotations.

Set Implicit Arguments.

(** ** Results of calls that may throw *)

Inductive Result (A : Type) : Type :=
| Ok (a : A)
| Throw.

Arguments Ok {A} a.
Arguments Throw {A}.

Definition rbind {A B} (r : Result A) (k : A -> Result B) : Result B :=
  match r with
  | Ok a => k a
  | Throw => Throw
  end.

Declare Scope result_scope.
Delimit Scope result_scope with result.
Notation "'let?' x ':=' r 'in' k" := (rbind r (fun x => k))
  (at level 10, x name, r at level 100, k at level 200) : result_scope.

(** [o.f] for a possibly-undefined object [o]. *)
Definition prop {A B} (o : option A) (f : A -> B) : Result B :=
  match o with
  | Some a => Ok (f a)
  | None => Throw
  end.

(** Truthiness of an object reference, of an optional boolean flag and of
    an optional string (the empty string is falsy). *)
Definition present {A} (o : option A) : bool :=
  match o with Some _ => true | None => false end.

Definition truthy (o : option bool) : bool :=
  match o with Some b => b | None => false end.

Definition truthy_string (o : option string) : bool :=
  match o with
  | Some s => negb (String.eqb s EmptyString)
  | None => false
  end.

(** ** Numbers *)

Class Number (num : Type) : Type := {
  nplus : num -> num -> num;
  nminus : num -> num -> num;
  ndiv : num -> num -> num;
  nzero : num;
  ntwo : num
}.

(** The arithmetic of the program: binary64, round to nearest even. *)
#[export] Instance float_Number : Number float := {|
  nplus := PrimFloat.add;
  nminus := PrimFloat.sub;
  ndiv := PrimFloat.div;
  nzero := 0%float;
  ntwo := 2%float
|}.

(** ** Geometry ([Coords] and [Dims] of [./dom]) *)

Record Coords (num : Type) : Type := { x : num; y : num }.
Record Dims (num : Type) : Type := { width : num; height : num }.

(** ** The DOM as far as [offset.ts] reads it *)

Definition Element : Type := nat.

Record ClientRect (num : Type) : Type := {
  rect_width : num;
  rect_height : num
}.

Record Document (num : Type) : Type := {
  body : Element;
  documentElement : Element;
  scrollLeft : Element -> num;
  scrollTop : Element -> num;
  getBoundingClientRect : Element -> ClientRect num
}.

(** [a.isSameNode(b)]: [b] may be [undefined], which is no node. *)
Definition isSameNode (a : Element) (b : option Element) : bool :=
  match b with
  | Some n => Nat.eqb a n
  | None => false
  end.

(** ** offset.ts *)

Section Offset.
Context {num : Type} `{Number num}.
Variable document : Document num.

(** Helpers of [./dom] and [./viewport]. *)
Variable getElementCoords : Element -> Result (Coords num).
Variable getViewportStart : Element -> Result (Coords num).
Variable getViewportDims : option Element -> Result (Dims num).

Local Open Scope result_scope.

Definition getCurrentScrollOffset (root : option Element)
  : Result (Coords num) :=
  if isSameNode (body document) root then
    Ok {| x := scrollLeft document (documentElement document);
          y := scrollTop document (documentElement document) |}
  else
    let? sl := prop root (scrollLeft document) in
    let? st := prop root (scrollTop document) in
    Ok {| x := sl; y := st |}.

Definition addScrollOffset (root : option Element)
    (coords : option (Coords num)) : Result (Coords num) :=
  let? curOffset := getCurrentScrollOffset root in
  let? cx := prop coords (@x num) in
  let? cy := prop coords (@y num) in
  Ok {| x := nplus cx (x curOffset); y := nplus cy (y curOffset) |}.

(** The result is [None] where the source returns [undefined]. *)
Definition addAppropriateOffset (root : option Element)
    (coords : option (Coords num)) : Result (option (Coords num)) :=
  match coords, root with
  | Some c, Some r =>
      if negb (isSameNode (body document) root) then
        let? rootCoords := getElementCoords r in
        let? res :=
          addScrollOffset root
            (Some {| x := nminus (x c) (x rootCoords);
                     y := nminus (y c) (y rootCoords) |}) in
        Ok (Some res)
      else
        let? res := addScrollOffset root coords in
        Ok (Some res)
  | _, _ => Ok None
  end.

Definition applyCenterOffset (aCoords : Coords num) (aDims b : Dims num)
  : Coords num :=
  {| x := nminus (nplus (x aCoords) (ndiv (width aDims) ntwo))
                 (ndiv (width b) ntwo);
     y := nminus (nplus (y aCoords) (ndiv (height aDims) ntwo))
                 (ndiv (height b) ntwo) |}.

Definition centerElementInViewport (root element : option Element)
  : Result (Coords num) :=
  let? elementData := prop element (getBoundingClientRect document) in
  let elementDims := {| width := rect_width elementData;
                        height := rect_height elementData |} in
  let? elementCoords :=
    match element with
    | Some e => getElementCoords e
    | None => Throw
    end in
  let? viewportDims := getViewportDims root in
  Ok (applyCenterOffset elementCoords elementDims viewportDims).

Definition getViewportCenter (root element : option Element)
  : Result (option (Coords num)) :=
  match root with
  | None => Ok None
  | Some r =>
      let elementData :=
        option_map (getBoundingClientRect document) element in
      let? startCoords := getViewportStart r in
      let? viewportDims := getViewportDims root in
      let elementDims :=
        match elementData with
        | Some d => {| width := rect_width d; height := rect_height d |}
        | None => {| width := nzero; height := nzero |}
        end in
      Ok (Some (applyCenterOffset startCoords viewportDims elementDims))
  end.

(** The centre of a box of size [d] whose top-left corner is at [c]. *)
Definition boxCenter (c : Coords num) (d : Dims num) : Coords num :=
  {| x := nplus (x c) (ndiv (width d) ntwo);
     y := nplus (y c) (ndiv (height d) ntwo) |}.

End Offset.

(** ** tour.ts: the update-decision predicates *)

(** [a > b] on numbers; false as soon as one side is NaN. *)
Definition gt (a b : float) : bool := PrimFloat.ltb b a.

(** [a !== b] on numbers; true as soon as one side is NaN. *)
Definition strict_ne (a b : float) : bool := negb (PrimFloat.eqb a b).

(** [OrientationCoords] of [./positioning]: coordinates with the side of
    the target on which the tooltip sits. *)
Record OrientationCoords (Orientation : Type) : Type := {
  orientation : Orientation;
  coords : Coords float
}.

(** [ShouldUpdateArgs], which extends [TargetChangedArgs],
    [ShouldScrollArgs] and [TooltipDesyncArgs]: every predicate receives
    (a spread of) such a bundle and reads the fields it destructures.
    [positioning] stands for the remaining fields of
    [GetTooltipPositionArgs], which only [getTooltipPosition] reads. *)
Record ShouldUpdateArgs (Positioning : Type) : Type := {
  root : option Element;
  tooltip : option Element;
  target : option Element;
  tooltipPosition : option (Coords float);
  targetCoords : option (Coords float);
  targetDims : option (Dims float);
  rerenderTolerance : float;
  disableAutoScroll : option bool;
  allowForeignTarget : option bool;
  selector : option string;
  positioning : Positioning
}.

Section UpdateDecision.
Variables Positioning Orientation : Type.

(** Helpers of [./dom]. *)
Variable dist : Coords float -> option (Coords float) -> Result float.
Variable areaDiff : Dims float -> option (Dims float) -> Result float.
Variable fitsWithin : Dims float -> Dims float -> Result bool.
Variable getElementDims : option Element -> Result (Dims float).
Variable isForeignTarget : option Element -> option string -> Result bool.
(** Helpers of [./positioning]. *)
Variable getTargetPosition :
  option Element -> option Element -> Result (Coords float).
Variable getTooltipPosition :
  ShouldUpdateArgs Positioning -> Result (OrientationCoords Orientation).
(** Helpers of [./viewport]; the third argument of [isElementInView] is
    optional. *)
Variable isElementInView :
  option Element -> option Element -> option (Coords float) -> Result bool.
Variable getViewportDims : option Element -> Result (Dims float).

Local Open Scope result_scope.

Definition naiveShouldScroll (args : ShouldUpdateArgs Positioning)
  : Result bool :=
  let? tooltipInView :=
    isElementInView (root args) (tooltip args) (tooltipPosition args) in
  if negb tooltipInView then Ok true
  else
    let? targetInView := isElementInView (root args) (target args) None in
    if negb targetInView then
      let? targetSize := getElementDims (target args) in
      let? viewport := getViewportDims (root args) in
      fitsWithin targetSize viewport
    else Ok false.

Definition shouldScroll (args : ShouldUpdateArgs Positioning)
  : Result bool :=
  if negb (present (root args)) || negb (present (tooltip args))
     || negb (present (target args)) then Ok false
  else if truthy (disableAutoScroll args) then Ok false
  else if truthy (allowForeignTarget args)
          && truthy_string (selector args) then
    let? foreign := isForeignTarget (root args) (selector args) in
    Ok (negb foreign)
  else naiveShouldScroll args.

Definition targetChanged (args : ShouldUpdateArgs Positioning)
  : Result bool :=
  let t := present (target args) in
  let c := present (targetCoords args) in
  let d := present (targetDims args) in
  if negb t && negb c && negb d then Ok false
  else if (negb t && c && d) || (t && negb c && negb d) then Ok true
  else
    let? currentTargetSize := getElementDims (target args) in
    let? currentTargetPosition :=
      getTargetPosition (root args) (target args) in
    let? area := areaDiff currentTargetSize (targetDims args) in
    let sizeChanged := gt area (rerenderTolerance args) in
    let? moved := dist currentTargetPosition (targetCoords args) in
    let positionChanged := gt moved (rerenderTolerance args) in
    Ok (sizeChanged || positionChanged).

Definition tooltipDesync (args : ShouldUpdateArgs Positioning)
  : Result bool :=
  if present (target args) || negb (present (root args))
     || negb (present (tooltip args)) then Ok false
  else
    let? newPosition := getTooltipPosition args in
    let? moved := dist (coords newPosition) (tooltipPosition args) in
    Ok (strict_ne moved 0).

(** [a || b || c] evaluates its operands from the left and stops at the
    first that is true. *)
Definition shouldUpdate (args : ShouldUpdateArgs Positioning)
  : Result bool :=
  if negb (present (root args)) || negb (present (tooltip args)) then
    Ok false
  else
    let? changed := targetChanged args in
    if changed then Ok true
    else
      let? scroll := shouldScroll args in
      if scroll then Ok true else tooltipDesync args.

End UpdateDecision.

(** ** The DOM as far as [tour.ts] writes it: event listeners *)

(** What an event handler does to the page and to its event. [Uncaught] is
    a TypeError thrown by the handler, which ends it. *)
Inductive Effect : Type :=
| PreventDefault
| Focus (el : Element)
| Uncaught.

(** [el.focus()] for a possibly-undefined [el]. *)
Definition focus (el : option Element) : list Effect :=
  match el with
  | Some n => [Focus n]
  | None => [Uncaught]
  end.

Record KeyboardEvent : Type := {
  keyCode : nat;
  shiftKey : bool;
  evTarget : Element
}.

Record FocusTrapArgs : Type := {
  start : option Element;
  end_ : option Element;
  beforeStart : option Element;
  afterEnd : option Element;
  lightningRod : option Element
}.

(** A host function ([next], [validateNext]) by name. *)
Definition Callback : Type := nat.

(** The closures this module registers as listeners, by what they have
    captured.  Two closures are the same listener when they are the same
    object, that is when their [ref]s agree. *)
Inductive Code : Type :=
| TrapHandler (args : FocusTrapArgs)
| ClickHandler (target : option Element) (next : Callback)
    (validateNext : option Callback).

Record Closure : Type := { ref : nat; code : Code }.

Record Listener : Type := {
  l_node : Element;
  l_type : string;
  l_callback : Closure
}.

Record Dom : Type := {
  listeners : list Listener;
  next_ref : nat
}.

(** State and exceptions. *)
Definition M (A : Type) : Type := Dom -> Result (A * Dom).

Definition ret {A} (a : A) : M A := fun dom => Ok (a, dom).

Definition bind {A B} (m : M A) (k : A -> M B) : M B :=
  fun dom =>
    match m dom with
    | Ok (a, dom') => k a dom'
    | Throw => Throw
    end.

Definition lift {A} (r : Result A) : M A :=
  fun dom =>
    match r with
    | Ok a => Ok (a, dom)
    | Throw => Throw
    end.

Declare Scope dom_scope.
Delimit Scope dom_scope with dom.
Notation "x <- m ;; k" := (bind m (fun x => k))
  (at level 61, m at next level, right associativity) : dom_scope.
Notation "m ;; k" := (bind m (fun _ => k))
  (at level 61, right associativity) : dom_scope.

(** [o.m(...)] for a possibly-undefined receiver [o]. *)
Definition method {A} (o : option Element) (m : Element -> M A) : M A :=
  match o with
  | Some n => m n
  | None => fun _ => Throw
  end.

(** A new function object. *)
Definition closure (c : Code) : M Closure :=
  fun dom =>
    Ok ({| ref := next_ref dom; code := c |},
        {| listeners := listeners dom; next_ref := S (next_ref dom) |}).

Definition same_listener (n : Element) (ty : string) (cb : Closure)
    (l : Listener) : bool :=
  Nat.eqb (l_node l) n && String.eqb (l_type l) ty
  && Nat.eqb (ref (l_callback l)) (ref cb).

(** [n.addEventListener(ty, cb)]: a listener already registered is not
    registered twice. *)
Definition addEventListener (ty : string) (cb : Closure) (n : Element)
  : M unit :=
  fun dom =>
    if existsb (same_listener n ty cb) (listeners dom) then Ok (tt, dom)
    else
      Ok (tt, {| listeners :=
                   listeners dom
                   ++ [{| l_node := n; l_type := ty; l_callback := cb |}];
                 next_ref := next_ref dom |}).

(** [n.removeEventListener(ty, cb)]: with [undefined] for [cb] there is
    nothing to remove. *)
Definition removeEventListener (ty : string) (cb : option Closure)
    (n : Element) : M unit :=
  fun dom =>
    match cb with
    | None => Ok (tt, dom)
    | Some f =>
        Ok (tt, {| listeners :=
                     filter (fun l => negb (same_listener n ty f l))
                            (listeners dom);
                   next_ref := next_ref dom |})
    end.

(** ** tour.ts: the focus trap *)

(** [e.target === el]: the target of a dispatched event is a node, and no
    node is [undefined]. *)
Definition isTarget (e : KeyboardEvent) (el : option Element) : bool :=
  match el with
  | Some n => Nat.eqb (evTarget e) n
  | None => false
  end.

(** The [{start, end}] object of [getEdgeFocusables]. *)
Record Edges : Type := {
  edge_start : option Element;
  edge_end : option Element
}.

(** The closure [setFocusTrap] returns, by what it has captured. *)
Record FocusTrapCleanup : Type := {
  c_target : option Element;
  c_targetTrapHandler : option Closure;
  c_tooltipContainer : option Element;
  c_tooltipTrapHandler : Closure
}.

Section FocusTrap.
(** Of [./constants]. *)
Variable TAB_KEYCODE : nat.
(** Of [./dom]; it throws, or returns an object to destructure. *)
Variable getEdgeFocusables :
  option Element -> option Element -> option bool -> Result Edges.

Local Open Scope dom_scope.

(** The handler [getFocusTrapHandler(args)] run on the event [e]. *)
Definition getFocusTrapHandler (args : FocusTrapArgs) (e : KeyboardEvent)
  : list Effect :=
  if Nat.eqb (keyCode e) TAB_KEYCODE then
    if shiftKey e && isTarget e (start args) then
      PreventDefault ::
        (if present (beforeStart args) then focus (beforeStart args)
         else focus (end_ args))
    else if negb (shiftKey e) && isTarget e (end_ args) then
      PreventDefault ::
        (if present (afterEnd args) then focus (afterEnd args)
         else focus (start args))
    else if isTarget e (lightningRod args) then
      PreventDefault :: focus (start args)
    else []
  else [].

Definition setFocusTrap (tooltipContainer target : option Element)
    (disableMaskInteraction : option bool) : M (option FocusTrapCleanup) :=
  if negb (present tooltipContainer) then ret None
  else
    tooltipEdges <-
      lift (getEdgeFocusables tooltipContainer tooltipContainer None) ;;
    targetEdges <- lift (getEdgeFocusables None target (Some true)) ;;
    let tooltipFirst := edge_start tooltipEdges in
    let tooltipLast := edge_end tooltipEdges in
    let targetFirst := edge_start targetEdges in
    let targetLast := edge_end targetEdges in
    wired <-
      (if present target && negb (truthy disableMaskInteraction)
          && present targetFirst && present targetLast then
         targetTrapHandler <-
           closure (TrapHandler {| start := targetFirst;
                                   end_ := targetLast;
                                   beforeStart := tooltipLast;
                                   afterEnd := tooltipFirst;
                                   lightningRod := None |}) ;;
         method target (addEventListener "keydown" targetTrapHandler) ;;
         ret (targetLast, targetFirst, Some targetTrapHandler)
       else ret (None, None, None)) ;;
    let '(tooltipBeforeStart, tooltipAfterEnd, targetTrapHandler) :=
      wired in
    tooltipTrapHandler <-
      closure (TrapHandler {| start := tooltipFirst;
                              end_ := tooltipLast;
                              beforeStart := tooltipBeforeStart;
                              afterEnd := tooltipAfterEnd;
                              lightningRod := tooltipContainer |}) ;;
    method tooltipContainer
      (addEventListener "keydown" tooltipTrapHandler) ;;
    ret (Some {| c_target := target;
                 c_targetTrapHandler := targetTrapHandler;
                 c_tooltipContainer := tooltipContainer;
                 c_tooltipTrapHandler := tooltipTrapHandler |}).

(** Calling the closure [setFocusTrap] returned. *)
Definition runFocusTrapCleanup (c : FocusTrapCleanup) : M unit :=
  (if present (c_target c) then
     method (c_target c)
       (removeEventListener "keydown" (c_targetTrapHandler c))
   else ret tt) ;;
  method (c_tooltipContainer c)
    (removeEventListener "keydown" (Some (c_tooltipTrapHandler c))).

(** A keydown event [e] reaching the node [n]: every keydown listener of
    [n] runs, in the order of registration.  The click handlers of
    [setNextOnTargetClick] are registered for click events only. *)
Definition handleKeydown (cb : Closure) (e : KeyboardEvent) : list Effect :=
  match code cb with
  | TrapHandler args => getFocusTrapHandler args e
  | ClickHandler _ _ _ => []
  end.

Definition fire (dom : Dom) (e : KeyboardEvent) (n : Element)
  : list Effect :=
  flat_map
    (fun l =>
       if Nat.eqb (l_node l) n && String.eqb (l_type l) "keydown" then
         handleKeydown (l_callback l) e
       else [])
    (listeners dom).

(** The event travels along [path], the nodes from its target up to the
    document. *)
Definition dispatchKeydown (dom : Dom) (path : list Element)
    (e : KeyboardEvent) : list Effect :=
  flat_map (fire dom e) path.

End FocusTrap.

(** ** tour.ts: advancing on a click on the target *)

Record MouseEvent : Type := { clickTarget : Element }.

(** The closure [setNextOnTargetClick] returns, by what it has captured. *)
Record ClickCleanup : Type := {
  cc_target : option Element;
  cc_clickHandler : Closure
}.

(** A call that may throw after it has changed the page: how it ended,
    and the page it leaves. *)
Definition Run : Type := Dom -> Result unit * Dom.

(** A call of the DOM, which throws before it changes anything. *)
Definition run_of (m : M unit) : Run :=
  fun dom =>
    match m dom with
    | Ok (_, dom') => (Ok tt, dom')
    | Throw => (Throw, dom)
    end.

(** How the promise of an [async] call settles. *)
Inductive Settled : Type :=
| Fulfilled
| Rejected.

Definition settle (r : Result unit * Dom) : Settled * Dom :=
  (match fst r with
   | Ok _ => Fulfilled
   | Throw => Rejected
   end,
   snd r).

(** A call of an [async] function with one [await].  It does not throw.
    Either the body ends within the call ([Finished]: how the promise is
    settled, and the page the body leaves), or it reaches the [await]
    ([Awaiting]): the call returns on the page [dom], and [resume] is the
    rest of the body, which runs once the awaited promise has settled, on
    the page as it is by then. *)
Inductive Async : Type :=
| Finished (outcome : Settled) (dom : Dom)
| Awaiting (dom : Dom) (resume : Dom -> Settled * Dom).

Section NextOnTargetClick.
(** The host's [next(fromTarget)]: whether it returns or throws, and the
    page it leaves.  The host's [validateNext(event)]: the page its call
    leaves, and what its promise settles to ([Throw] when the promise
    rejects, or the call throws inside the [async] arrow). *)
Variable call_next : Callback -> option bool -> Run.
Variable call_validateNext :
  Callback -> MouseEvent -> Dom -> Dom * Result bool.

Local Open Scope dom_scope.

Definition takeActionIfValid (action : unit -> Run)
    (actionValidator : option (unit -> Dom -> Dom * Result bool))
    (dom : Dom) : Async :=
  match actionValidator with
  | Some validator =>
      let '(dom1, valid) := validator tt dom in
      Awaiting dom1
        (fun later =>
           match valid with
           | Ok true => settle (action tt later)
           | Ok false => (Fulfilled, later)
           | Throw => (Rejected, later)
           end)
  | None =>
      let '(outcome, dom1) := settle (action tt dom) in
      Finished outcome dom1
  end.

(** The body of [clickHandler]; [self] is the handler itself.  The
    handler drops the promise of [takeActionIfValid] and returns: the
    result is that call, and the page on which the handler returns is the
    page of its [Finished] or [Awaiting]. *)
Definition clickHandler (self : Closure) (target : option Element)
    (next : Callback) (validateNext : option Callback)
    (event : MouseEvent) (dom : Dom) : Async :=
  let actionWithCleanup := fun (_ : unit) (page : Dom) =>
    match call_next next (Some true) page with
    | (Ok _, page1) =>
        run_of (method target (removeEventListener "click" (Some self)))
          page1
    | (Throw, page1) => (Throw, page1)
    end in
  let actionWithMouseEvent :=
    match validateNext with
    | Some v => Some (fun _ : unit => call_validateNext v event)
    | None => None
    end in
  takeActionIfValid actionWithCleanup actionWithMouseEvent dom.

Definition setNextOnTargetClick (target : option Element)
    (next : Callback) (validateNext : option Callback)
  : M (option ClickCleanup) :=
  if negb (present target) then ret None
  else
    handler <- closure (ClickHandler target next validateNext) ;;
    method target (addEventListener "click" handler) ;;
    ret (Some {| cc_target := target; cc_clickHandler := handler |}).

Definition runClickCleanup (c : ClickCleanup) : M unit :=
  method (cc_target c)
    (removeEventListener "click" (Some (cc_clickHandler c))).

End NextOnTargetClick.

(** ** tour.ts: identifiers *)

Definition getIdString (base : string) (identifier : option string)
  : string :=
  (base ++ (if truthy_string identifier then
              match identifier with
              | Some i => "-" ++ i
              | None => EmptyString
              end
            else EmptyString))%string.

(** ** The window's timers

    [setTimeout] and [setInterval] hand out handles from one counter, and
    the handles are positive.  A timer holds the thunk to run, as data of
    type [F]; [ran] records the thunks run so far. *)

Inductive TimerKind : Type := Once | Repeating.

Record Timer (F : Type) : Type := {
  handle : nat;
  kind : TimerKind;
  delay : float;
  thunk : F
}.

Record Window (F : Type) : Type := {
  timers : list (Timer F);
  next_handle : nat;
  ran : list F
}.

Section Timers.
Variable F : Type.

Definition setTimer (k : TimerKind) (f : F) (ms : float) (w : Window F)
  : nat * Window F :=
  (next_handle w,
   {| timers := timers w ++ [{| handle := next_handle w; kind := k;
                                delay := ms; thunk := f |}];
      next_handle := S (next_handle w);
      ran := ran w |}).

Definition setTimeout (f : F) (ms : float) (w : Window F) : nat * Window F :=
  setTimer Once f ms w.


(** [clearTimeout(h)] and [clearInterval(h)]: the timer with that handle,
    if there is one, is dropped. *)
Definition clearTimer (h : nat) (w : Window F) : Window F :=
  {| timers := filter (fun t => negb (Nat.eqb (handle t) h)) (timers w);
     next_handle := next_handle w;
     ran := ran w |}.

Definition is_repeating (t : Timer F) : bool :=
  match kind t with
  | Repeating => true
  | Once => false
  end.

(** Time passes until every pending timer has been due once: each thunk
    runs, in the order the timers were set, and the timeouts are gone. *)
Definition timersFire (w : Window F) : Window F :=
  {| timers := filter is_repeating (timers w);
     next_handle := next_handle w;
     ran := ran w ++ map (@thunk F) (timers w) |}.

(** [if (timeoutId)]: [undefined] and 0 are falsy. *)
Definition truthy_handle (timeoutId : option nat) : bool :=
  match timeoutId with
  | Some h => negb (Nat.eqb h 0)
  | None => false
  end.

End Timers.

(** ** tour.ts: [debounce] and [setTargetWatcher] *)

Section Debounce.
(** The arguments of the debounced function [f]; the thunk [() =>
    f(...args)] of a timeout is its [args]. *)
Variable T : Type.

(** [interval: number = 300]. *)
Definition debounce_interval (interval : option float) : float :=
  match interval with
  | Some ms => ms
  | None => 300%float
  end.

(** One call of the function [debounce(f, interval)] returns, with the
    value its variable [timeoutId] holds before and after. *)
Definition debounce (interval : option float) (timeoutId : option nat)
    (args : T) (w : Window T) : option nat * Window T :=
  let w1 :=
    if truthy_handle timeoutId then
      match timeoutId with
      | Some h => clearTimer h w
      | None => w
      end
    else w in
  let '(h, w2) := setTimeout args (debounce_interval interval) w1 in
  (Some h, w2).

(** What happens to a debounced function: it is called, or the timers
    fire. *)
Inductive DebounceEvent : Type :=
| Call (args : T)
| TimersFire.

Fixpoint debounce_run (interval : option float) (events : list DebounceEvent)
    (timeoutId : option nat) (w : Window T) : option nat * Window T :=
  match events with
  | [] => (timeoutId, w)
  | Call args :: rest =>
      let '(timeoutId', w') := debounce interval timeoutId args w in
      debounce_run interval rest timeoutId' w'
  | TimersFire :: rest => debounce_run interval rest timeoutId (timersFire w)
  end.

End Debounce.



(** ** tour.ts: [setTourUpdateListener] *)

(** [event] is [None] when the object has no such property, and
    [Some None] when it has it with the value [undefined]. *)
Record SetTourUpdateListenerArgs : Type := {
  update : Callback;
  customSetListener : option Callback;
  customRemoveListener : option Callback;
  event : option (option string)
}.

(** The listeners of the window, by event type and function, and the calls
    made to host functions: [(f, u)] is a call [f(u)]. *)
Record WindowEvents : Type := {
  window_listeners : list (string * Callback);
  host_calls : list (Callback * Callback)
}.

(** The event type as a [DOMString]: [undefined] becomes its name. *)
Definition event_type (ev : option string) : string :=
  match ev with
  | Some s => s
  | None => "undefined"
  end.

Definition same_window_listener (ty : string) (f : Callback)
    (l : string * Callback) : bool :=
  String.eqb (fst l) ty && Nat.eqb (snd l) f.

Definition window_addEventListener (ev : option string) (f : Callback)
    (w : WindowEvents) : WindowEvents :=
  if existsb (same_window_listener (event_type ev) f) (window_listeners w)
  then w
  else {| window_listeners := window_listeners w ++ [(event_type ev, f)];
          host_calls := host_calls w |}.

Definition window_removeEventListener (ev : option string) (f : Callback)
    (w : WindowEvents) : WindowEvents :=
  {| window_listeners :=
       filter (fun l => negb (same_window_listener (event_type ev) f l))
              (window_listeners w);
     host_calls := host_calls w |}.

Definition call_host (f u : Callback) (w : WindowEvents) : WindowEvents :=
  {| window_listeners := window_listeners w;
     host_calls := host_calls w ++ [(f, u)] |}.

(** The closure [setTourUpdateListener] returns, by the branch that made
    it and what it has captured. *)
Inductive UpdateDetach : Type :=
| CustomDetach (customRemoveListener update : Callback)
| WindowDetach (event : option string) (update : Callback).

(** [{ event: 'resize', ...args }]: a property of [args] replaces the
    default, whatever its value. *)
Definition spread_event (args : SetTourUpdateListenerArgs) : option string :=
  match event args with
  | Some v => v
  | None => Some "resize"%string
  end.

Definition setTourUpdateListener (args : SetTourUpdateListenerArgs)
    (w : WindowEvents) : UpdateDetach * WindowEvents :=
  match customSetListener args, customRemoveListener args with
  | Some set, Some remove =>
      (CustomDetach remove (update args), call_host set (update args) w)
  | _, _ =>
      (WindowDetach (spread_event args) (update args),
       window_addEventListener (spread_event args) (update args) w)
  end.

Definition runUpdateDetach (d : UpdateDetach) (w : WindowEvents)
  : WindowEvents :=
  match d with
  | CustomDetach remove u => call_host remove u w
  | WindowDetach ev u => window_removeEventListener ev u w
  end.

(** ** A sample page

    Concrete values and concrete helpers, on which the definitions above
    are run in the examples below.  They are not part of the program. *)

(** A target 10 wide and 20 high at (10.1, 0), and a tooltip 100 by 40;
    [101 / 10] is the binary64 value the literal [10.1] denotes. *)
Definition sample_aCoords : Coords float :=
  {| x := (101 / 10)%float; y := 0%float |}.
Definition sample_aDims : Dims float :=
  {| width := 10%float; height := 20%float |}.
Definition sample_bDims : Dims float :=
  {| width := 100%float; height := 40%float |}.

(** Euclidean distance and difference of areas; both read their second
    argument, and throw when it is [undefined]. *)
Definition sample_dist (a : Coords float) (b : option (Coords float))
  : Result float :=
  match b with
  | Some b' =>
      Ok (PrimFloat.sqrt ((x a - x b') * (x a - x b')
                          + (y a - y b') * (y a - y b')))%float
  | None => Throw
  end.

Definition sample_areaDiff (a : Dims float) (b : option (Dims float))
  : Result float :=
  match b with
  | Some b' =>
      Ok (PrimFloat.abs (height a * width a - height b' * width b'))%float
  | None => Throw
  end.

Definition sample_fitsWithin (a b : Dims float) : Result bool :=
  Ok (PrimFloat.leb (height a) (height b)
      && PrimFloat.leb (width a) (width b)).

(** Every element of the sample page measures like the sample target. *)
Definition sample_getElementDims (el : option Element)
  : Result (Dims float) :=
  match el with
  | Some _ => Ok sample_aDims
  | None => Throw
  end.

Definition sample_getTargetPosition (root target : option Element)
  : Result (Coords float) :=
  match target with
  | Some _ => Ok sample_aCoords
  | None => Throw
  end.

(** Helpers that throw as soon as they are called. *)
Definition failing1 {A B} (_ : A) : Result B := Throw.
Definition failing2 {A B C} (_ : A) (_ : B) : Result C := Throw.
Definition failing3 {A B C D} (_ : A) (_ : B) (_ : C) : Result D := Throw.

(** A bundle with nothing in it but a tolerance. *)
Definition empty_args (tolerance : float) : ShouldUpdateArgs unit :=
  {| root := None; tooltip := None; target := None;
     tooltipPosition := None; targetCoords := None; targetDims := None;
     rerenderTolerance := tolerance;
     disableAutoScroll := None; allowForeignTarget := None;
     selector := None; positioning := tt |}.

(** The target is there and so are the cached coordinates, but the cached
    dims are not; the tolerance is [Infinity]. *)
Definition partial_snapshot_args : ShouldUpdateArgs unit :=
  {| root := Some 0; tooltip := Some 2; target := Some 1;
     tooltipPosition := None;
     targetCoords := Some sample_aCoords; targetDims := None;
     rerenderTolerance := infinity;
     disableAutoScroll := None; allowForeignTarget := None;
     selector := None; positioning := tt |}.

(** The target is there, and the snapshot is what it measures now; the
    tolerance is zero. *)
Definition unchanged_args : ShouldUpdateArgs unit :=
  {| root := Some 0; tooltip := Some 2; target := Some 1;
     tooltipPosition := None;
     targetCoords := Some sample_aCoords; targetDims := Some sample_aDims;
     rerenderTolerance := 0%float;
     disableAutoScroll := None; allowForeignTarget := None;
     selector := None; positioning := tt |}.

(** The target is there and has moved from the origin, where the snapshot
    has it; the tolerance is 5. *)
Definition moved_args : ShouldUpdateArgs unit :=
  {| root := Some 0; tooltip := Some 2; target := Some 1;
     tooltipPosition := None;
     targetCoords := Some {| x := 0%float; y := 0%float |};
     targetDims := Some sample_aDims;
     rerenderTolerance := 5%float;
     disableAutoScroll := None; allowForeignTarget := None;
     selector := None; positioning := tt |}.

(** The tooltip (node 2) is in view wherever it is put; nothing else is. *)
Definition sample_isElementInView (root el : option Element)
    (pos : option (Coords float)) : Result bool :=
  match el with
  | Some n => Ok (Nat.eqb n 2)
  | None => Throw
  end.

Definition sample_getViewportDims (root : option Element)
  : Result (Dims float) :=
  Ok {| width := 1024%float; height := 768%float |}.

(** Only the selector [#elsewhere] names a foreign target. *)
Definition sample_isForeignTarget (root : option Element)
    (sel : option string) : Result bool :=
  match sel with
  | Some s => Ok (String.eqb s "#elsewhere")
  | None => Ok false
  end.

(** The bundle [moved_args] with the scrolling options set. *)
Definition scroll_args (disable allowForeign : option bool)
    (sel : option string) : ShouldUpdateArgs unit :=
  {| root := Some 0; tooltip := Some 2; target := Some 1;
     tooltipPosition := Some sample_aCoords;
     targetCoords := Some {| x := 0%float; y := 0%float |};
     targetDims := Some sample_aDims;
     rerenderTolerance := 5%float;
     disableAutoScroll := disable; allowForeignTarget := allowForeign;
     selector := sel; positioning := tt |}.

(** A tooltip without target, rendered at [pos]. *)
Definition centered_args (pos : Coords float) : ShouldUpdateArgs unit :=
  {| root := Some 0; tooltip := Some 2; target := None;
     tooltipPosition := Some pos;
     targetCoords := None; targetDims := None;
     rerenderTolerance := 5%float;
     disableAutoScroll := None; allowForeignTarget := None;
     selector := None; positioning := tt |}.

(** Two positioning functions that agree on the place, (462, 364), and
    differ in the side. *)
Definition sample_getTooltipPosition (side : string)
    (args : ShouldUpdateArgs unit) : Result (OrientationCoords string) :=
  Ok {| orientation := side;
        coords := {| x := 462%float; y := 364%float |} |}.

(** ** Notions the statements use *)

(** Every registered listener is a closure made before [k]: closures get
    their [ref] from [next_ref], so a page reached by the functions above
    has its listeners below its [next_ref]. *)
Definition refs_below (k : nat) (ls : list Listener) : bool :=
  forallb (fun l => Nat.ltb (ref (l_callback l)) k) ls.

Definition well_formed (dom : Dom) : bool :=
  refs_below (next_ref dom) (listeners dom).

(** A page without listeners. *)
Definition empty_page : Dom := {| listeners := []; next_ref := 0 |}.

(** Tab and Shift-Tab pressed on the node [n]. *)
Definition tab (TAB_KEYCODE : nat) (n : Element) : KeyboardEvent :=
  {| keyCode := TAB_KEYCODE; shiftKey := false; evTarget := n |}.

Definition shiftTab (TAB_KEYCODE : nat) (n : Element) : KeyboardEvent :=
  {| keyCode := TAB_KEYCODE; shiftKey := true; evTarget := n |}.

(** The two listeners of a trap: the one on the target, made as closure
    [k], and the one on the tooltip container. *)
Definition targetTrapListener (k : nat) (t : Element)
    (tooltipEdges targetEdges : Edges) : Listener :=
  {| l_node := t; l_type := "keydown";
     l_callback :=
       {| ref := k;
          code := TrapHandler {| start := edge_start targetEdges;
                                 end_ := edge_end targetEdges;
                                 beforeStart := edge_end tooltipEdges;
                                 afterEnd := edge_start tooltipEdges;
                                 lightningRod := None |} |} |}.

Definition tooltipTrapListener (k : nat) (tc : Element)
    (tooltipEdges : Edges) (before after : option Element) : Listener :=
  {| l_node := tc; l_type := "keydown";
     l_callback :=
       {| ref := k;
          code := TrapHandler {| start := edge_start tooltipEdges;
                                 end_ := edge_end tooltipEdges;
                                 beforeStart := before;
                                 afterEnd := after;
                                 lightningRod := Some tc |} |} |}.

(** Whether [setFocusTrap] chains the target's region into the ring. *)
Definition chained (target : option Element)
    (disableMaskInteraction : option bool) (targetEdges : Edges) : bool :=
  present target && negb (truthy disableMaskInteraction)
  && present (edge_start targetEdges) && present (edge_end targetEdges).

(** A sample trap: the tooltip container is node 2 with focusables 10 and
    11, the target is node 1 with focusables 20 and 21; [Tab] is key 9. *)
Definition sample_getEdgeFocusables (defaultElement container : option Element)
    (includeSelf : option bool) : Result Edges :=
  match container with
  | Some 2 => Ok {| edge_start := Some 10; edge_end := Some 11 |}
  | Some 1 => Ok {| edge_start := Some 20; edge_end := Some 21 |}
  | _ => Ok {| edge_start := defaultElement; edge_end := defaultElement |}
  end.

(** What a debounced function is for: of the calls made since the timers
    last fired, the last one reaches [f] when they fire again.  [armed] is
    that call's arguments, if there is one. *)
Fixpoint last_calls_fire (T : Type) (events : list (DebounceEvent T))
    (armed : option T) : list T :=
  match events with
  | [] => []
  | Call args :: rest => last_calls_fire rest (Some args)
  | TimersFire _ :: rest =>
      match armed with
      | Some args => args :: last_calls_fire rest None
      | None => last_calls_fire rest None
      end
  end.

(** The call still waiting for the timers after [events]. *)
Fixpoint armed_after (T : Type) (events : list (DebounceEvent T))
    (armed : option T) : option T :=
  match events with
  | [] => armed
  | Call args :: rest => armed_after rest (Some args)
  | TimersFire _ :: rest => armed_after rest None
  end.

(** What holds between two events on a debounced function: the handles
    are positive, and the window has the one timeout of the call that
    waits, or none. *)
Definition debounce_invariant (T : Type) (interval : option float)
    (timeoutId : option nat) (w : Window T) (armed : option T) : Prop :=
  next_handle w <> 0
  /\ match armed with
     | Some args =>
         exists h,
           timeoutId = Some h /\ h <> 0
           /\ timers w
              = [{| handle := h; kind := Once;
                    delay := debounce_interval interval; thunk := args |}]
     | None => timers w = []
     end.


(** A host whose [next] leaves the page alone, and whose validator 1
    accepts every click while every other validator refuses; no validator
    touches the page. *)
Definition sample_call_next (next : Callback) (fromTarget : option bool)
  : Run :=
  fun dom => (Ok tt, dom).

Definition sample_call_validateNext (validateNext : Callback)
    (event : MouseEvent) (dom : Dom) : Dom * Result bool :=
  (dom, Ok (Nat.eqb validateNext 1)).

(** A rectangular page: the body is node 0 and the root element node 100,
    scrolled by (0, 250); node 7 is a container scrolled by (30, 40);
    every element is 200 wide and 100 high. *)
Definition sample_document : Document float :=
  {| body := 0;
     documentElement := 100;
     scrollLeft := fun n =>
       if Nat.eqb n 7 then 30%float else 0%float;
     scrollTop := fun n =>
       if Nat.eqb n 7 then 40%float
       else if Nat.eqb n 100 then 250%float else 0%float;
     getBoundingClientRect := fun _ =>
       {| rect_width := 200%float; rect_height := 100%float |} |}.

(** Every element of the sample document sits at (15, 25). *)
Definition sample_getElementCoords (el : Element) : Result (Coords float) :=
  Ok {| x := 15%float; y := 25%float |}.

(** The sample target moved to (10.5, 0), on the half pixel. *)
Definition sample_halfCoords : Coords float :=
  {| x := 10.5%float; y := 0%float |}.

(** ** Numbers that binary64 holds exactly

    [gridSF q k] is the binary64 value of the integer [k] scaled by
    [2^-q], as IEEE 754 rounds it.  For [|k| < 2^53] and [0 <= q <= 1000]
    nothing is rounded: the value is [k * 2^-q] itself, a 53-bit mantissa
    with its exponent ([canon]). *)
Definition gridSF (q k : Z) : spec_float :=
  binary_normalize prec emax k (- q)%Z false.

(** The number [v] is [k * 2^-q]. *)
Definition on_grid (q k : Z) (v : float) : Prop :=
  Prim2SF v = gridSF q k.

(** The number [v] is a multiple [k * 2^-q] of [2^-q] with [|k| < 2^50]:
    with [q = 0] a whole number of pixels, with [q = 1] of half pixels. *)
Definition in_grid (q : Z) (v : float) : Prop :=
  exists k : Z, (Z.abs k < 2 ^ 50)%Z /\ on_grid q k v.

Definition coords_in_grid (q : Z) (c : Coords float) : Prop :=
  in_grid q (x c) /\ in_grid q (y c).

Definition dims_in_grid (q : Z) (d : Dims float) : Prop :=
  in_grid q (width d) /\ in_grid q (height d).

(** The normalised binary64 representation of [p * 2^-q] with sign [s]:
    the mantissa is [p] shifted up to 53 digits. *)
Definition canon (s : bool) (p : positive) (q : Z) (f : spec_float) : Prop :=
  exists m : positive,
    f = S754_finite s m (Zpos (digits2_pos p) - 53 - q)%Z
    /\ (Zpos m = Zpos p * 2 ^ (53 - Zpos (digits2_pos p)))%Z.

(** * Properties *)

(** ** Comparisons of numbers *)

(** No number is greater than [Infinity]. *)
Lemma gt_infinity (a : float) : gt a infinity = false.
Proof.
  unfold gt. rewrite ltb_spec.
  change (Prim2SF infinity) with (S754_infinity false).
  unfold SFltb, SFcompare.
  destruct (Prim2SF a) as [s|s| |s m e]; try reflexivity;
    destruct s; reflexivity.
Qed.

(** ** Binary64 arithmetic that is exact

    Sums, differences and halves of numbers [k * 2^-q] with small enough
    [k] are computed without rounding.  The proofs follow the IEEE 754
    specification of the operations ([SFadd], [SFsub], [SFdiv]), which
    the primitive operations obey ([add_spec], [sub_spec], [div_spec]),
    through [binary_normalize]. *)

Section GridArithmetic.
Local Unset Implicit Arguments.
Local Open Scope Z_scope.

(** *** Mantissas: shifts and numbers of digits *)

Lemma Zpos_iter_xO (p n : positive) :
  Zpos (Pos.iter xO p n) = Zpos p * 2 ^ Zpos n.
Proof.
  induction n as [|n IH] using Pos.peano_ind.
  - simpl. lia.
  - rewrite Pos.iter_succ, Pos2Z.inj_xO, IH, Pos2Z.inj_succ.
    rewrite Z.pow_succ_r by lia. lia.
Qed.

Lemma digits_iter_xO (p n : positive) :
  Zpos (digits2_pos (Pos.iter xO p n)) = Zpos (digits2_pos p) + Zpos n.
Proof.
  induction n as [|n IH] using Pos.peano_ind.
  - simpl. lia.
  - rewrite Pos.iter_succ. simpl digits2_pos. lia.
Qed.

Lemma digits_lower (p : positive) : 2 ^ (Zpos (digits2_pos p) - 1) <= Zpos p.
Proof.
  induction p as [p IH|p IH|]; simpl digits2_pos.
  - replace (Zpos (Pos.succ (digits2_pos p)) - 1)
      with (Z.succ (Zpos (digits2_pos p) - 1)) by lia.
    rewrite Z.pow_succ_r by lia. lia.
  - replace (Zpos (Pos.succ (digits2_pos p)) - 1)
      with (Z.succ (Zpos (digits2_pos p) - 1)) by lia.
    rewrite Z.pow_succ_r by lia. lia.
  - simpl. lia.
Qed.

Lemma digits_bound (p : positive) :
  Zpos p < 2 ^ 53 -> Zpos (digits2_pos p) <= 53.
Proof.
  intros H. pose proof (digits_lower p) as L.
  destruct (Z_le_gt_dec (Zpos (digits2_pos p)) 53) as [|G]; [assumption|].
  assert (2 ^ 53 <= 2 ^ (Zpos (digits2_pos p) - 1))
    by (apply Z.pow_le_mono_r; lia).
  lia.
Qed.

Lemma digits_shift (m p : positive) (j : Z) :
  0 <= j -> Zpos m = Zpos p * 2 ^ j ->
  Zpos (digits2_pos m) = Zpos (digits2_pos p) + j.
Proof.
  intros Hj H. destruct j as [|j|j]; [| |lia].
  - simpl in H. assert (m = p) by lia. subst. lia.
  - rewrite <- Zpos_iter_xO in H. injection H as ->. apply digits_iter_xO.
Qed.

(** Shifting out zeros loses nothing. *)
Lemma iter_shr_1_exact (n : positive) : forall M, 0 < M ->
  iter_pos shr_1 n (Build_shr_record (M * 2 ^ Zpos n) false false)
  = Build_shr_record M false false.
Proof.
  assert (one : forall M, 0 < M ->
    shr_1 (Build_shr_record (M * 2) false false)
    = Build_shr_record M false false).
  { intros M HM. destruct M as [|p|p]; try lia.
    replace (Zpos p * 2) with (Zpos p~0) by lia. reflexivity. }
  induction n as [n IH|n IH|]; intros M HM; cbn [iter_pos].
  - assert (pos' : forall M, 0 < M -> 0 < M * 2 ^ Zpos n).
    { intros M' HM'.
      assert (0 < 2 ^ Zpos n) by (apply Z.pow_pos_nonneg; lia). nia. }
    replace (M * 2 ^ Zpos n~1) with (((M * 2 ^ Zpos n) * 2 ^ Zpos n) * 2).
    2:{ rewrite <- (Z.mul_assoc M), <- Z.pow_add_r by lia.
        replace (Zpos n~1) with (Z.succ (Zpos n + Zpos n)) by lia.
        rewrite Z.pow_succ_r by lia. lia. }
    rewrite one by (apply pos'; apply pos'; assumption).
    rewrite IH by (apply pos'; assumption).
    apply IH; assumption.
  - assert (pos' : forall M, 0 < M -> 0 < M * 2 ^ Zpos n).
    { intros M' HM'.
      assert (0 < 2 ^ Zpos n) by (apply Z.pow_pos_nonneg; lia). nia. }
    replace (M * 2 ^ Zpos n~0) with ((M * 2 ^ Zpos n) * 2 ^ Zpos n).
    2:{ rewrite <- Z.mul_assoc, <- Z.pow_add_r by lia. do 2 f_equal. lia. }
    rewrite IH by (apply pos'; assumption).
    apply IH; assumption.
  - apply one; assumption.
Qed.

(** *** Rounding a number that needs none *)

Lemma fexp_normal (z : Z) :
  -1021 <= z -> SpecFloat.fexp prec emax z = z - 53.
Proof.
  intros H. unfold SpecFloat.fexp, SpecFloat.emin, prec, emax. lia.
Qed.

Lemma shr_fexp_full (m : positive) (e : Z) :
  Zpos (digits2_pos m) = 53 -> -1074 <= e ->
  shr_fexp prec emax (Zpos m) e loc_Exact
  = (Build_shr_record (Zpos m) false false, e).
Proof.
  intros Hd He. unfold shr_fexp, Zdigits2. cbn [shr_record_of_loc shr_m].
  rewrite Hd, fexp_normal by lia.
  replace (53 + e - 53 - e) with 0 by lia. reflexivity.
Qed.

Lemma shr_fexp_shift (m m2 : positive) (e : Z) (n : positive) :
  Zpos (digits2_pos m) = 53 + Zpos n -> -1074 <= e + Zpos n ->
  Zpos m = Zpos m2 * 2 ^ Zpos n ->
  shr_fexp prec emax (Zpos m) e loc_Exact
  = (Build_shr_record (Zpos m2) false false, e + Zpos n).
Proof.
  intros Hd He Hm. unfold shr_fexp, Zdigits2. cbn [shr_record_of_loc shr_m].
  rewrite Hd, fexp_normal by lia.
  replace (53 + Zpos n + e - 53 - e) with (Zpos n) by lia.
  unfold shr. rewrite Hm, iter_shr_1_exact by lia. reflexivity.
Qed.

Lemma binary_round_aux_exact (s : bool) (m m2 : positive) (e e2 : Z) :
  shr_fexp prec emax (Zpos m) e loc_Exact
  = (Build_shr_record (Zpos m2) false false, e2) ->
  Zpos (digits2_pos m2) = 53 -> -1074 <= e2 <= 971 ->
  binary_round_aux prec emax s (Zpos m) e loc_Exact = S754_finite s m2 e2.
Proof.
  intros Hs Hd He. unfold binary_round_aux.
  rewrite Hs.
  cbn [loc_of_shr_record shr_m shr_r shr_s round_nearest_even].
  rewrite shr_fexp_full by lia.
  cbn [shr_m].
  replace (e2 <=? emax - prec) with true; [reflexivity|].
  symmetry. apply Z.leb_le. unfold emax, prec. lia.
Qed.

(** The mantissa [p * 2^j] with the exponent [-q - j] is rounded to the
    normalised representation of [p * 2^-q]. *)
Lemma binary_round_exact (s : bool) (m p : positive) (j q : Z) :
  0 <= j -> 0 <= q <= 1000 -> Zpos (digits2_pos p) <= 53 ->
  Zpos m = Zpos p * 2 ^ j ->
  canon s p q (binary_round prec emax s m (- q - j)).
Proof.
  intros Hj Hq Hd Hm.
  pose proof (@digits_shift m p j Hj Hm) as Dm.
  assert (Hpos : 0 < Zpos (digits2_pos p)) by lia.
  unfold binary_round, canon. rewrite Dm.
  rewrite fexp_normal by lia.
  unfold shl_align.
  set (d := Zpos (digits2_pos p)) in *.
  destruct (d + j + (- q - j) - 53 - (- q - j)) as [|n|n] eqn:En.
  - assert (j = 53 - d) by lia. subst j.
    rewrite (@binary_round_aux_exact s m m (- q - (53 - d))
               (- q - (53 - d))).
    + exists m. split; [f_equal; lia | assumption].
    + apply shr_fexp_full; lia.
    + lia.
    + lia.
  - assert (P : 0 < Zpos p * 2 ^ (53 - d)).
    { assert (0 < 2 ^ (53 - d)) by (apply Z.pow_pos_nonneg; lia). nia. }
    destruct (Zpos p * 2 ^ (53 - d)) as [|m2|m2] eqn:Em2; try lia.
    assert (Hm2 : Zpos m = Zpos m2 * 2 ^ Zpos n).
    { rewrite Hm, <- Em2, <- Z.mul_assoc, <- Z.pow_add_r by lia.
      do 2 f_equal. lia. }
    assert (Dm2 : Zpos (digits2_pos m2) = 53).
    { rewrite (@digits_shift m2 p (53 - d)); fold d; lia. }
    rewrite (@binary_round_aux_exact s m m2 (- q - j) (- q - j + Zpos n)).
    + exists m2. split; [f_equal; lia | reflexivity].
    + apply shr_fexp_shift; lia.
    + assumption.
    + lia.
  - assert (Dm2 : Zpos (digits2_pos (Pos.iter xO m n)) = 53)
      by (rewrite digits_iter_xO; lia).
    rewrite (@binary_round_aux_exact s _ (Pos.iter xO m n) _
               (d + j + (- q - j) - 53)).
    + exists (Pos.iter xO m n). split; [f_equal; lia|].
      rewrite Zpos_iter_xO, Hm, <- Z.mul_assoc, <- Z.pow_add_r by lia.
      do 2 f_equal. lia.
    + apply shr_fexp_full; lia.
    + assumption.
    + lia.
Qed.

Lemma canon_unique (s : bool) (p : positive) (q : Z) (f g : spec_float) :
  canon s p q f -> canon s p q g -> f = g.
Proof.
  intros (m & -> & Hm) (m' & -> & Hm'). f_equal. lia.
Qed.

(** *** The numbers [k * 2^-q] *)

(** [gridSF q k] is zero for [k = 0], and otherwise the normalised
    representation of [|k| * 2^-q] with the sign of [k]: nothing of [k]
    is lost. *)
Lemma gridSF_canon (q k : Z) :
  0 <= q <= 1000 -> Z.abs k < 2 ^ 53 -> k <> 0 ->
  exists p, Zpos p = Z.abs k /\ canon (k <? 0) p q (gridSF q k).
Proof.
  intros Hq Hk Hz.
  destruct k as [|p|p]; [lia| |]; exists p; (split; [reflexivity|]);
    unfold gridSF, binary_normalize; replace (- q) with (- q - 0) by lia;
    apply binary_round_exact; try lia; apply digits_bound; lia.
Qed.

(** The same number written with a larger mantissa. *)
Lemma normalize_shift (q k J : Z) :
  0 <= q <= 1000 -> Z.abs k < 2 ^ 53 -> 0 <= J ->
  binary_normalize prec emax (k * 2 ^ J) (- q - J) false = gridSF q k.
Proof.
  intros Hq Hk HJ. assert (P : 0 < 2 ^ J) by (apply Z.pow_pos_nonneg; lia).
  destruct k as [|p|p].
  - reflexivity.
  - destruct (Zpos p * 2 ^ J) as [|m|m] eqn:Em; try nia.
    unfold gridSF, binary_normalize.
    apply (@canon_unique false p q).
    + apply binary_round_exact; try lia. apply digits_bound. lia.
    + replace (- q) with (- q - 0) by lia.
      apply binary_round_exact; try lia. apply digits_bound. lia.
  - destruct (Zneg p * 2 ^ J) as [|m|m] eqn:Em; try nia.
    unfold gridSF, binary_normalize.
    apply (@canon_unique true p q).
    + apply binary_round_exact; try lia. apply digits_bound. lia.
    + replace (- q) with (- q - 0) by lia.
      apply binary_round_exact; try lia. apply digits_bound. lia.
Qed.

Lemma gridSF_refine (q k : Z) :
  0 <= q <= 1000 -> Z.abs k < 2 ^ 53 -> gridSF q k = gridSF (q + 1) (2 * k).
Proof.
  intros Hq Hk. rewrite <- (@normalize_shift q k 1) by lia.
  unfold gridSF. f_equal; lia.
Qed.

(** A number of the grid that is not zero, by its mantissa and exponent:
    their value is [k * 2^-q]. *)
Lemma gridSF_finite (q k : Z) :
  0 <= q <= 1000 -> Z.abs k < 2 ^ 53 -> k <> 0 ->
  exists m e, gridSF q k = S754_finite (k <? 0) m e /\ e <= - q
              /\ cond_Zopp (k <? 0) (Zpos m) = k * 2 ^ (- q - e).
Proof.
  intros Hq Hk Hz.
  destruct (gridSF_canon q k Hq Hk Hz) as (p & Hp & m & E & Hm).
  pose proof (digits_bound p ltac:(lia)) as D.
  exists m, (Zpos (digits2_pos p) - 53 - q).
  split; [exact E |]. split; [lia |].
  replace (- q - (Zpos (digits2_pos p) - 53 - q))
    with (53 - Zpos (digits2_pos p)) by lia.
  destruct k as [|k|k]; [lia | |]; simpl cond_Zopp.
  - rewrite Hm. f_equal. lia.
  - change (Zneg m) with (- Zpos m). rewrite Hm. lia.
Qed.

Lemma gridSF_opp (q k : Z) :
  0 <= q <= 1000 -> Z.abs k < 2 ^ 53 -> k <> 0 ->
  gridSF q (- k) = SFopp (gridSF q k).
Proof.
  intros Hq Hk Hz.
  destruct (gridSF_canon q k Hq Hk Hz) as (p & Hp & m & E & Hm).
  destruct (gridSF_canon q (- k) Hq ltac:(lia) ltac:(lia))
    as (p' & Hp' & C').
  assert (p' = p) by lia. subst p'.
  apply (@canon_unique (- k <? 0) p q); [exact C' |].
  rewrite E. exists m. split; [| exact Hm].
  simpl SFopp. f_equal.
  destruct k as [|k|k]; [lia | reflexivity | reflexivity].
Qed.

(** *** Addition and subtraction *)

Lemma shl_align_fst (m : positive) (e ez : Z) :
  ez <= e -> Zpos (fst (shl_align m e ez)) = Zpos m * 2 ^ (e - ez).
Proof.
  intros H. unfold shl_align.
  destruct (ez - e) as [|n|n] eqn:En; try lia.
  - replace (e - ez) with 0 by lia. simpl. lia.
  - simpl fst. rewrite Zpos_iter_xO. do 2 f_equal. lia.
Qed.

Lemma cond_Zopp_shift (s : bool) (m : positive) (k q e ez : Z) :
  ez <= e -> e <= - q ->
  cond_Zopp s (Zpos m) = k * 2 ^ (- q - e) ->
  cond_Zopp s (Zpos (fst (shl_align m e ez))) = k * 2 ^ (- q - ez).
Proof.
  intros H1 H2 H. rewrite shl_align_fst by assumption.
  replace (- q - ez) with ((- q - e) + (e - ez)) by lia.
  rewrite Z.pow_add_r, Z.mul_assoc, <- H by lia.
  destruct s; unfold cond_Zopp; ring.
Qed.

Lemma SFadd_grid (q k1 k2 : Z) :
  0 <= q <= 1000 ->
  Z.abs k1 < 2 ^ 53 -> Z.abs k2 < 2 ^ 53 -> Z.abs (k1 + k2) < 2 ^ 53 ->
  SFadd prec emax (gridSF q k1) (gridSF q k2) = gridSF q (k1 + k2).
Proof.
  intros Hq H1 H2 H12.
  destruct (Z.eq_dec k1 0) as [->|N1].
  { destruct (Z.eq_dec k2 0) as [->|N2]; [reflexivity|].
    destruct (gridSF_finite q k2) as (m & e & E & _); try assumption.
    simpl Z.add. rewrite E. reflexivity. }
  destruct (gridSF_finite q k1) as (m1 & e1 & E1 & L1 & V1); try assumption.
  destruct (Z.eq_dec k2 0) as [->|N2].
  { rewrite Z.add_0_r, E1. reflexivity. }
  destruct (gridSF_finite q k2) as (m2 & e2 & E2 & L2 & V2); try assumption.
  rewrite E1, E2. cbn [SFadd].
  rewrite (@cond_Zopp_shift _ m1 k1 q e1 (Z.min e1 e2))
    by (assumption || lia).
  rewrite (@cond_Zopp_shift _ m2 k2 q e2 (Z.min e1 e2))
    by (assumption || lia).
  rewrite <- Z.mul_add_distr_r.
  replace (Z.min e1 e2) with (- q - (- q - Z.min e1 e2)) at 2 by lia.
  apply normalize_shift; lia.
Qed.

Lemma SFsub_grid (q k1 k2 : Z) :
  0 <= q <= 1000 ->
  Z.abs k1 < 2 ^ 53 -> Z.abs k2 < 2 ^ 53 -> Z.abs (k1 - k2) < 2 ^ 53 ->
  SFsub prec emax (gridSF q k1) (gridSF q k2) = gridSF q (k1 - k2).
Proof.
  intros Hq H1 H2 H12.
  destruct (Z.eq_dec k2 0) as [->|N2].
  { rewrite Z.sub_0_r.
    destruct (Z.eq_dec k1 0) as [->|N1]; [reflexivity|].
    destruct (gridSF_finite q k1) as (m & e & E & _); try assumption.
    rewrite E. reflexivity. }
  destruct (gridSF_finite q k2) as (m2 & e2 & E2 & L2 & V2); try assumption.
  destruct (Z.eq_dec k1 0) as [->|N1].
  { simpl Z.sub. rewrite gridSF_opp, E2 by assumption. reflexivity. }
  destruct (gridSF_finite q k1) as (m1 & e1 & E1 & L1 & V1); try assumption.
  rewrite E1, E2. cbn [SFsub].
  rewrite (@cond_Zopp_shift _ m1 k1 q e1 (Z.min e1 e2))
    by (assumption || lia).
  rewrite (@cond_Zopp_shift _ m2 k2 q e2 (Z.min e1 e2))
    by (assumption || lia).
  rewrite <- Z.mul_sub_distr_r.
  replace (Z.min e1 e2) with (- q - (- q - Z.min e1 e2)) at 2 by lia.
  apply normalize_shift; lia.
Qed.

(** *** Division by two *)

Lemma SFdiv_grid_two (q k : Z) :
  0 <= q < 1000 -> Z.abs k < 2 ^ 53 ->
  SFdiv prec emax (gridSF q k) (Prim2SF 2) = gridSF (q + 1) k.
Proof.
  intros Hq Hk.
  change (Prim2SF 2) with (S754_finite false 4503599627370496 (-51)).
  destruct (Z.eq_dec k 0) as [->|Hz]; [reflexivity|].
  destruct (gridSF_canon q k) as (p & Hp & m & E & Hm); try lia.
  destruct (gridSF_canon (q + 1) k) as (p' & Hp' & C'); try lia.
  assert (p' = p) by lia. subst p'.
  pose proof (digits_bound p ltac:(lia)) as D.
  assert (Dm : Zpos (digits2_pos m) = 53).
  { rewrite (@digits_shift m p (53 - Zpos (digits2_pos p))); lia. }
  apply (fun H => @canon_unique _ p (q + 1) _ _ H C').
  rewrite E. unfold SFdiv, SFdiv_core_binary, Zdigits2. rewrite Dm.
  change (Zpos (digits2_pos 4503599627370496)) with 53.
  rewrite fexp_normal by lia.
  set (e := Zpos (digits2_pos p) - 53 - q) in *.
  replace (Z.min (53 + e - (53 + -51) - 53) (e - -51)) with (e - 2) by lia.
  replace (e - -51 - (e - 2)) with 53 by lia.
  rewrite Z.shiftl_mul_pow2 by lia.
  assert (Hdiv : Z.div_eucl (Zpos m * 2 ^ 53) 4503599627370496
                 = (Zpos m~0, 0)).
  { pose proof (Z.div_eucl_eq (Zpos m * 2 ^ 53) 4503599627370496
                  ltac:(lia)) as Q.
    pose proof (Z.mod_pos_bound (Zpos m * 2 ^ 53) 4503599627370496
                  ltac:(lia)) as B.
    unfold Z.modulo in B.
    destruct (Z.div_eucl (Zpos m * 2 ^ 53) 4503599627370496) as [a r].
    change (2 ^ 53) with 9007199254740992 in Q. f_equal; lia. }
  rewrite Hdiv. change (new_location 4503599627370496 0) with loc_Exact.
  rewrite Bool.xorb_false_r.
  rewrite (@binary_round_aux_exact _ (m~0) m (e - 2) (e - 2 + 1)).
  - exists m. split; [f_equal; lia | assumption].
  - apply shr_fexp_shift; simpl digits2_pos; lia.
  - assumption.
  - lia.
Qed.

(** *** The operations of the program on the grid *)

Lemma grid_unique (q k k' : Z) (u v : float) :
  on_grid q k u -> on_grid q k' v -> k = k' -> u = v.
Proof.
  unfold on_grid. intros H1 H2 ->. apply Prim2SF_inj. congruence.
Qed.

Lemma grid_add (q k1 k2 : Z) (u v : float) :
  0 <= q <= 1000 ->
  Z.abs k1 < 2 ^ 53 -> Z.abs k2 < 2 ^ 53 -> Z.abs (k1 + k2) < 2 ^ 53 ->
  on_grid q k1 u -> on_grid q k2 v -> on_grid q (k1 + k2) (u + v)%float.
Proof.
  unfold on_grid. intros Hq H1 H2 H12 Hu Hv.
  rewrite add_spec, Hu, Hv. apply SFadd_grid; assumption.
Qed.

Lemma grid_sub (q k1 k2 : Z) (u v : float) :
  0 <= q <= 1000 ->
  Z.abs k1 < 2 ^ 53 -> Z.abs k2 < 2 ^ 53 -> Z.abs (k1 - k2) < 2 ^ 53 ->
  on_grid q k1 u -> on_grid q k2 v -> on_grid q (k1 - k2) (u - v)%float.
Proof.
  unfold on_grid. intros Hq H1 H2 H12 Hu Hv.
  rewrite sub_spec, Hu, Hv. apply SFsub_grid; assumption.
Qed.

Lemma grid_half (q k : Z) (u : float) :
  0 <= q < 1000 -> Z.abs k < 2 ^ 53 ->
  on_grid q k u -> on_grid (q + 1) k (u / 2)%float.
Proof.
  unfold on_grid. intros Hq Hk Hu.
  rewrite div_spec, Hu. apply SFdiv_grid_two; assumption.
Qed.

Lemma grid_refine (q k : Z) (u : float) :
  0 <= q <= 1000 -> Z.abs k < 2 ^ 53 ->
  on_grid q k u -> on_grid (q + 1) (2 * k) u.
Proof.
  unfold on_grid. intros Hq Hk Hu. rewrite Hu.
  apply gridSF_refine; assumption.
Qed.

(** A number of the grid is one of the finer grid, and so is its half. *)
Lemma in_grid_refine (q : Z) (v : float) :
  0 <= q < 1000 -> in_grid q v ->
  exists k, Z.abs k < 2 ^ 51 /\ on_grid (q + 1) k v.
Proof.
  intros Hq (k & Hk & Hv). exists (2 * k). split; [lia |].
  apply grid_refine; [lia | lia | assumption].
Qed.

Lemma in_grid_half (q : Z) (v : float) :
  0 <= q < 1000 -> in_grid q v ->
  exists k, Z.abs k < 2 ^ 51 /\ on_grid (q + 1) k (v / 2)%float.
Proof.
  intros Hq (k & Hk & Hv). exists k. split; [lia |].
  apply grid_half; [lia | lia | assumption].
Qed.

(** One axis of [applyCenterOffset]: the corner [u], the sizes [w1] and
    [w2].  No operation rounds. *)
Lemma center_axis (q : Z) (u w1 w2 : float) :
  0 <= q < 1000 -> in_grid q u -> in_grid q w1 -> in_grid q w2 ->
  (u + w1 / 2 - w2 / 2 + w2 / 2 = u + w1 / 2)%float.
Proof.
  intros Hq Hu H1 H2.
  destruct (in_grid_refine q u Hq Hu) as (ku & Bu & Gu).
  destruct (in_grid_half q w1 Hq H1) as (k1 & B1 & G1).
  destruct (in_grid_half q w2 Hq H2) as (k2 & B2 & G2).
  assert (HQ : 0 <= q + 1 <= 1000) by lia.
  assert (Ga : on_grid (q + 1) (ku + k1) (u + w1 / 2)%float)
    by (apply grid_add; (assumption || lia)).
  assert (Gb : on_grid (q + 1) (ku + k1 - k2) (u + w1 / 2 - w2 / 2)%float)
    by (apply grid_sub; (assumption || lia)).
  assert (Gc : on_grid (q + 1) (ku + k1 - k2 + k2)
                 (u + w1 / 2 - w2 / 2 + w2 / 2)%float)
    by (apply grid_add; (assumption || lia)).
  apply (grid_unique _ _ _ _ _ Gc Ga). lia.
Qed.

Lemma center_axis_same (q : Z) (u w1 : float) :
  0 <= q < 1000 -> in_grid q u -> in_grid q w1 ->
  (u + w1 / 2 - w1 / 2 = u)%float.
Proof.
  intros Hq Hu H1.
  destruct (in_grid_refine q u Hq Hu) as (ku & Bu & Gu).
  destruct (in_grid_half q w1 Hq H1) as (k1 & B1 & G1).
  assert (HQ : 0 <= q + 1 <= 1000) by lia.
  assert (Ga : on_grid (q + 1) (ku + k1) (u + w1 / 2)%float)
    by (apply grid_add; (assumption || lia)).
  assert (Gb : on_grid (q + 1) (ku + k1 - k1) (u + w1 / 2 - w1 / 2)%float)
    by (apply grid_sub; (assumption || lia)).
  apply (grid_unique _ _ _ _ _ Gb Gu). lia.
Qed.

Lemma center_axis_back (q : Z) (u w1 w2 : float) :
  0 <= q < 1000 -> in_grid q u -> in_grid q w1 -> in_grid q w2 ->
  (u + w1 / 2 - w2 / 2 + w2 / 2 - w1 / 2 = u)%float.
Proof.
  intros Hq Hu H1 H2.
  rewrite (center_axis q u w1 w2 Hq Hu H1 H2).
  apply (center_axis_same q u w1 Hq Hu H1).
Qed.

(** One axis of [addAppropriateOffset]: the coordinate [c], the root's
    coordinate [rc], the scroll offset [s] and a move by [dx]. *)
Lemma offset_axis_own (q : Z) (c s : float) :
  0 <= q <= 1000 -> in_grid q c -> in_grid q s ->
  (c - c + s = s)%float.
Proof.
  intros Hq (kc & Bc & Gc) (ks & Bs & Gs).
  assert (Ga : on_grid q (kc - kc) (c - c)%float)
    by (apply grid_sub; (assumption || lia)).
  assert (Gb : on_grid q (kc - kc + ks) (c - c + s)%float)
    by (apply grid_add; (assumption || lia)).
  apply (grid_unique _ _ _ _ _ Gb Gs). lia.
Qed.

Lemma offset_axis_shift (q : Z) (c dx rc s : float) :
  0 <= q <= 1000 ->
  in_grid q c -> in_grid q dx -> in_grid q rc -> in_grid q s ->
  (c + dx - rc + s = c - rc + s + dx)%float.
Proof.
  intros Hq (kc & Bc & Gc) (kd & Bd & Gd) (kr & Br & Gr) (ks & Bs & Gs).
  assert (G1 : on_grid q (kc + kd) (c + dx)%float)
    by (apply grid_add; (assumption || lia)).
  assert (G2 : on_grid q (kc + kd - kr) (c + dx - rc)%float)
    by (apply grid_sub; (assumption || lia)).
  assert (G3 : on_grid q (kc + kd - kr + ks) (c + dx - rc + s)%float)
    by (apply grid_add; (assumption || lia)).
  assert (G4 : on_grid q (kc - kr) (c - rc)%float)
    by (apply grid_sub; (assumption || lia)).
  assert (G5 : on_grid q (kc - kr + ks) (c - rc + s)%float)
    by (apply grid_add; (assumption || lia)).
  assert (G6 : on_grid q (kc - kr + ks + kd) (c - rc + s + dx)%float)
    by (apply grid_add; (assumption || lia)).
  apply (grid_unique _ _ _ _ _ G3 G6). lia.
Qed.

Lemma offset_axis_shift_body (q : Z) (c dx s : float) :
  0 <= q <= 1000 -> in_grid q c -> in_grid q dx -> in_grid q s ->
  (c + dx + s = c + s + dx)%float.
Proof.
  intros Hq (kc & Bc & Gc) (kd & Bd & Gd) (ks & Bs & Gs).
  assert (G1 : on_grid q (kc + kd) (c + dx)%float)
    by (apply grid_add; (assumption || lia)).
  assert (G2 : on_grid q (kc + kd + ks) (c + dx + s)%float)
    by (apply grid_add; (assumption || lia)).
  assert (G3 : on_grid q (kc + ks) (c + s)%float)
    by (apply grid_add; (assumption || lia)).
  assert (G4 : on_grid q (kc + ks + kd) (c + s + dx)%float)
    by (apply grid_add; (assumption || lia)).
  apply (grid_unique _ _ _ _ _ G2 G4). lia.
Qed.

End GridArithmetic.

(** ** Centering ([applyCenterOffset]) *)

(** The two centres of the sample differ in [x]: [10.1 + 5 - 50 + 50] is
    [15.100000000000001], and [10.1 + 5] is [15.1]. *)
Lemma applyCenterOffset_center_float_counterexample :
  boxCenter (applyCenterOffset sample_aCoords sample_aDims sample_bDims)
            sample_bDims
  <> boxCenter sample_aCoords sample_aDims.
Proof.
  intro Heq.
  assert (Hx : strict_ne
                 (x (boxCenter (applyCenterOffset sample_aCoords
                                  sample_aDims sample_bDims) sample_bDims))
                 (x (boxCenter sample_aCoords sample_aDims)) = false).
  { rewrite Heq. vm_compute. reflexivity. }
  vm_compute in Hx. discriminate Hx.
Qed.

(** C6 (amended): when the coordinates of [a] and the sizes [d] and [b]
    are multiples [k * 2^-q] of one power of two, with [0 <= q < 1000] and
    [|k| < 2^50] (whole pixels, half pixels, ...), the box of size [b]
    placed at [applyCenterOffset a d b] has the centre of the box of size
    [d] at [a], in both components and to the last bit, whichever of [b]
    and [d] is the larger. *)
Theorem applyCenterOffset_center_binary64 (q : Z) (a : Coords float)
    (d b : Dims float) :
  (0 <= q < 1000)%Z ->
  coords_in_grid q a -> dims_in_grid q d -> dims_in_grid q b ->
  boxCenter (applyCenterOffset a d b) b = boxCenter a d.
Proof.
  intros Hq [Hax Hay] [Hdw Hdh] [Hbw Hbh].
  unfold boxCenter, applyCenterOffset. simpl.
  rewrite (@center_axis q (x a) (width d) (width b) Hq Hax Hdw Hbw).
  rewrite (@center_axis q (y a) (height d) (height b) Hq Hay Hdh Hbh).
  reflexivity.
Qed.

(** Half pixels: the sample target at (10.5, 0) and the sample tooltip. *)
Lemma applyCenterOffset_center_binary64_witness :
  boxCenter (applyCenterOffset sample_halfCoords sample_aDims sample_bDims)
            sample_bDims
  = boxCenter sample_halfCoords sample_aDims.
Proof.
  apply (@applyCenterOffset_center_binary64 1).
  - lia.
  - split; [exists 21%Z | exists 0%Z]; (split; [lia | reflexivity]).
  - split; [exists 20%Z | exists 40%Z]; (split; [lia | reflexivity]).
  - split; [exists 200%Z | exists 80%Z]; (split; [lia | reflexivity]).
Defined.

(** ** Absent references *)

(** The functions of [offset.ts] without a guard read their argument, and
    throw when it is absent. *)
Remark unguarded_offsets_throw (num : Type) (N : Number num)
    (document : Document num)
    (getElementCoords : Element -> Result (Coords num))
    (getViewportDims : option Element -> Result (Dims num))
    (root : option Element) (coords : option (Coords num)) :
  getCurrentScrollOffset document None = Throw
  /\ addScrollOffset document None coords = Throw
  /\ centerElementInViewport document getElementCoords getViewportDims
       root None = Throw.
Proof. repeat split; reflexivity. Qed.

(** On the sample page: centring an absent element in the viewport of the
    body throws, and so does asking for, or adding, the scroll offset of an
    absent root. *)
Lemma absent_reference_throws_counterexample :
  centerElementInViewport sample_document sample_getElementCoords
    sample_getViewportDims (Some 0) None = Throw
  /\ getCurrentScrollOffset sample_document None = Throw
  /\ addScrollOffset sample_document None (Some sample_aCoords) = Throw.
Proof. repeat split; reflexivity. Qed.

(** C8 (amended): with an absent [tooltipContainer], [setFocusTrap]
    returns no cleanup and leaves the listeners as they were; with an
    absent [target], so does [setNextOnTargetClick]; with an absent [root]
    or absent [coords], [addAppropriateOffset] returns [undefined].  None
    of the three throws. *)
Theorem absent_reference_safe_default :
  (forall getEdgeFocusables target disableMaskInteraction dom,
      setFocusTrap getEdgeFocusables None target disableMaskInteraction dom
      = Ok (None, dom))
  /\ (forall next validateNext dom,
         setNextOnTargetClick None next validateNext dom = Ok (None, dom))
  /\ (forall (num : Type) (N : Number num) (document : Document num)
             getElementCoords coords,
         addAppropriateOffset document getElementCoords None coords
         = Ok None)
  /\ (forall (num : Type) (N : Number num) (document : Document num)
             getElementCoords root,
         addAppropriateOffset document getElementCoords root None
         = Ok None).
Proof.
  split; [reflexivity | split; [reflexivity | split]].
  - intros num N document getElementCoords [c|]; reflexivity.
  - reflexivity.
Qed.

(** Zero is greater than no tolerance that is at least zero. *)
Lemma gt_zero_nonneg (tolerance : float) :
  PrimFloat.leb 0 tolerance = true -> gt 0 tolerance = false.
Proof.
  unfold gt. rewrite leb_spec, ltb_spec.
  change (Prim2SF 0) with (S754_zero false).
  unfold SFleb, SFltb, SFcompare.
  destruct (Prim2SF tolerance) as [s|s| |s m e]; try reflexivity;
    destruct s; try reflexivity; discriminate.
Qed.

(** ** [targetChanged] *)

Section TargetChangedFacts.
Variable Positioning : Type.
Variable dist : Coords float -> option (Coords float) -> Result float.
Variable areaDiff : Dims float -> option (Dims float) -> Result float.
Variable getElementDims : option Element -> Result (Dims float).
Variable getTargetPosition :
  option Element -> option Element -> Result (Coords float).

(** What the function does once past its two guards. *)
Lemma targetChanged_measures (args : ShouldUpdateArgs Positioning) :
  (present (target args) || present (targetCoords args)
   || present (targetDims args)) = true ->
  ((negb (present (target args)) && present (targetCoords args)
    && present (targetDims args))
   || (present (target args) && negb (present (targetCoords args))
       && negb (present (targetDims args)))) = false ->
  targetChanged dist areaDiff getElementDims getTargetPosition args
  = rbind (getElementDims (target args)) (fun size =>
    rbind (getTargetPosition (root args) (target args)) (fun pos =>
    rbind (areaDiff size (targetDims args)) (fun area =>
    rbind (dist pos (targetCoords args)) (fun moved =>
    Ok (gt area (rerenderTolerance args)
        || gt moved (rerenderTolerance args)))))).
Proof.
  intros Hsome Hsync. unfold targetChanged.
  destruct (target args), (targetCoords args), (targetDims args);
    simpl in *; try discriminate; reflexivity.
Qed.

(** C1 (amended): whatever the tolerance and whatever the measuring helpers
    do, [targetChanged] returns [true] when the target is absent and the
    cached coords and dims are both present, and when the target is present
    and the cached coords and dims are both absent. *)
Theorem targetChanged_out_of_sync (args : ShouldUpdateArgs Positioning) :
  (present (target args) = false
   /\ present (targetCoords args) = true
   /\ present (targetDims args) = true)
  \/ (present (target args) = true
      /\ present (targetCoords args) = false
      /\ present (targetDims args) = false) ->
  targetChanged dist areaDiff getElementDims getTargetPosition args
  = Ok true.
Proof.
  unfold targetChanged.
  intros [(Ht & Hc & Hd) | (Ht & Hc & Hd)]; rewrite Ht, Hc, Hd; reflexivity.
Qed.

(** C4: with the target and both cached values present, the result is
    [true] exactly when the area difference or the distance is greater than
    the one tolerance; it is [false] when the target measures what the
    snapshot holds (on which area difference and distance are zero) and the
    tolerance is zero or more; and it is [false] when target, cached coords
    and cached dims are all absent. *)
Theorem targetChanged_compares :
  (forall (args : ShouldUpdateArgs Positioning) t c d size pos area moved,
      target args = Some t ->
      targetCoords args = Some c ->
      targetDims args = Some d ->
      getElementDims (Some t) = Ok size ->
      getTargetPosition (root args) (Some t) = Ok pos ->
      areaDiff size (Some d) = Ok area ->
      dist pos (Some c) = Ok moved ->
      targetChanged dist areaDiff getElementDims getTargetPosition args
      = Ok (gt area (rerenderTolerance args)
            || gt moved (rerenderTolerance args)))
  /\ (forall (args : ShouldUpdateArgs Positioning) t c d,
         target args = Some t ->
         targetCoords args = Some c ->
         targetDims args = Some d ->
         getElementDims (Some t) = Ok d ->
         getTargetPosition (root args) (Some t) = Ok c ->
         areaDiff d (Some d) = Ok 0%float ->
         dist c (Some c) = Ok 0%float ->
         PrimFloat.leb 0 (rerenderTolerance args) = true ->
         targetChanged dist areaDiff getElementDims getTargetPosition args
         = Ok false)
  /\ (forall (args : ShouldUpdateArgs Positioning),
         target args = None ->
         targetCoords args = None ->
         targetDims args = None ->
         targetChanged dist areaDiff getElementDims getTargetPosition args
         = Ok false).
Proof.
  assert (Hmain :
    forall (args : ShouldUpdateArgs Positioning) t c d size pos area moved,
      target args = Some t ->
      targetCoords args = Some c ->
      targetDims args = Some d ->
      getElementDims (Some t) = Ok size ->
      getTargetPosition (root args) (Some t) = Ok pos ->
      areaDiff size (Some d) = Ok area ->
      dist pos (Some c) = Ok moved ->
      targetChanged dist areaDiff getElementDims getTargetPosition args
      = Ok (gt area (rerenderTolerance args)
            || gt moved (rerenderTolerance args))).
  { intros args t c d size pos area moved Ht Hc Hd Hsize Hpos Harea Hmoved.
    rewrite targetChanged_measures by (rewrite Ht, Hc, Hd; reflexivity).
    rewrite Ht, Hc, Hd, Hsize. simpl.
    rewrite Hpos. simpl. rewrite Harea. simpl. rewrite Hmoved. reflexivity. }
  split; [exact Hmain | split].
  - intros args t c d Ht Hc Hd Hsize Hpos Harea Hmoved Htol.
    rewrite (Hmain args t c d d c 0%float 0%float) by assumption.
    rewrite (gt_zero_nonneg Htol). reflexivity.
  - intros args Ht Hc Hd. unfold targetChanged.
    rewrite Ht, Hc, Hd. reflexivity.
Qed.

End TargetChangedFacts.

(** The out-of-sync answer at tolerance [Infinity], with helpers that would
    throw if they were called. *)
Lemma targetChanged_out_of_sync_witness :
  targetChanged failing2 failing2 failing1 failing2
    {| root := Some 0; tooltip := Some 2; target := Some 1;
       tooltipPosition := None; targetCoords := None; targetDims := None;
       rerenderTolerance := infinity;
       disableAutoScroll := None; allowForeignTarget := None;
       selector := None; positioning := tt |}
  = Ok true.
Proof.
  apply targetChanged_out_of_sync.
  right. simpl. repeat split; reflexivity.
Defined.

(** With the target and the cached coords present and the cached dims
    absent, exactly one of "target present" and "coords and dims present"
    holds; yet whatever the helpers do, at tolerance [Infinity] the call
    does not return [true]: it goes on to measure, and either a helper
    throws or nothing is greater than [Infinity]. *)
Lemma targetChanged_partial_snapshot_counterexample :
  xorb (present (target partial_snapshot_args))
       (present (targetCoords partial_snapshot_args)
        && present (targetDims partial_snapshot_args)) = true
  /\ (forall dist areaDiff getElementDims getTargetPosition,
         targetChanged dist areaDiff getElementDims getTargetPosition
           partial_snapshot_args <> Ok true)
  /\ targetChanged sample_dist sample_areaDiff sample_getElementDims
       sample_getTargetPosition partial_snapshot_args = Throw.
Proof.
  split; [reflexivity | split; [| reflexivity]].
  intros dist areaDiff getElementDims getTargetPosition.
  rewrite targetChanged_measures by reflexivity.
  simpl.
  destruct (getElementDims _) as [size|]; simpl; [| discriminate].
  destruct (getTargetPosition _ _) as [pos|]; simpl; [| discriminate].
  destruct (areaDiff _ _) as [area|]; simpl; [| discriminate].
  destruct (dist _ _) as [moved|]; simpl; [| discriminate].
  rewrite !gt_infinity. discriminate.
Qed.

(** The three cases of [targetChanged_compares] on the sample page. *)
Lemma targetChanged_compares_witness :
  targetChanged sample_dist sample_areaDiff sample_getElementDims
    sample_getTargetPosition moved_args = Ok true
  /\ targetChanged sample_dist sample_areaDiff sample_getElementDims
       sample_getTargetPosition unchanged_args = Ok false
  /\ targetChanged sample_dist sample_areaDiff sample_getElementDims
       sample_getTargetPosition (empty_args 0) = Ok false.
Proof.
  destruct (@targetChanged_compares unit sample_dist sample_areaDiff
              sample_getElementDims sample_getTargetPosition)
    as (Hcmp & Hsame & Habsent).
  split; [| split].
  - rewrite (Hcmp moved_args 1 {| x := 0%float; y := 0%float |}
               sample_aDims sample_aDims sample_aCoords
               0%float (101 / 10)%float);
      reflexivity.
  - apply (Hsame unchanged_args 1 sample_aCoords sample_aDims);
      reflexivity.
  - apply Habsent; reflexivity.
Defined.

(** ** [shouldScroll] *)

Section ShouldScrollFacts.
Variable Positioning : Type.
Variable fitsWithin : Dims float -> Dims float -> Result bool.
Variable getElementDims : option Element -> Result (Dims float).
Variable isForeignTarget : option Element -> option string -> Result bool.
Variable isElementInView :
  option Element -> option Element -> option (Coords float) -> Result bool.
Variable getViewportDims : option Element -> Result (Dims float).

(** C2: [shouldScroll] is [false] when root, tooltip or target is missing
    or auto-scroll is disabled; otherwise, with [allowForeignTarget] and a
    selector, it is the negation of the foreign-target predicate, whatever
    the geometry helpers do; otherwise it is [true] when the tooltip at its
    position is not in view, else, when the target is out of view, whether
    the target's dims fit within the viewport's, else [false]. *)
Theorem shouldScroll_cases :
  (forall args : ShouldUpdateArgs Positioning,
      present (root args) = false \/ present (tooltip args) = false
      \/ present (target args) = false
      \/ truthy (disableAutoScroll args) = true ->
      shouldScroll fitsWithin getElementDims isForeignTarget
        isElementInView getViewportDims args = Ok false)
  /\ (forall args : ShouldUpdateArgs Positioning,
         present (root args) = true -> present (tooltip args) = true ->
         present (target args) = true ->
         truthy (disableAutoScroll args) = false ->
         truthy (allowForeignTarget args) = true ->
         truthy_string (selector args) = true ->
         shouldScroll fitsWithin getElementDims isForeignTarget
           isElementInView getViewportDims args
         = rbind (isForeignTarget (root args) (selector args))
                 (fun foreign => Ok (negb foreign)))
  /\ (forall args : ShouldUpdateArgs Positioning,
         present (root args) = true -> present (tooltip args) = true ->
         present (target args) = true ->
         truthy (disableAutoScroll args) = false ->
         truthy (allowForeignTarget args)
         && truthy_string (selector args) = false ->
         (isElementInView (root args) (tooltip args) (tooltipPosition args)
          = Ok false ->
          shouldScroll fitsWithin getElementDims isForeignTarget
            isElementInView getViewportDims args = Ok true)
         /\ (isElementInView (root args) (tooltip args)
               (tooltipPosition args) = Ok true ->
             isElementInView (root args) (target args) None = Ok true ->
             shouldScroll fitsWithin getElementDims isForeignTarget
               isElementInView getViewportDims args = Ok false)
         /\ (forall size viewport fits,
                isElementInView (root args) (tooltip args)
                  (tooltipPosition args) = Ok true ->
                isElementInView (root args) (target args) None = Ok false ->
                getElementDims (target args) = Ok size ->
                getViewportDims (root args) = Ok viewport ->
                fitsWithin size viewport = Ok fits ->
                shouldScroll fitsWithin getElementDims isForeignTarget
                  isElementInView getViewportDims args = Ok fits)).
Proof.
  split; [| split].
  - intros args H. unfold shouldScroll.
    destruct (present (root args)); [| reflexivity].
    destruct (present (tooltip args)); [| reflexivity].
    destruct (present (target args)); simpl; [| reflexivity].
    destruct (truthy (disableAutoScroll args)); [reflexivity |].
    destruct H as [H | [H | [H | H]]]; discriminate H.
  - intros args Hr Ht Hg Hd Ha Hs. unfold shouldScroll.
    rewrite Hr, Ht, Hg, Hd, Ha, Hs. reflexivity.
  - intros args Hr Ht Hg Hd Ha.
    assert (Hnaive :
      shouldScroll fitsWithin getElementDims isForeignTarget
        isElementInView getViewportDims args
      = naiveShouldScroll fitsWithin getElementDims isElementInView
          getViewportDims args).
    { unfold shouldScroll. rewrite Hr, Ht, Hg, Hd, Ha. reflexivity. }
    rewrite Hnaive. unfold naiveShouldScroll.
    split; [| split].
    + intros Htip. rewrite Htip. reflexivity.
    + intros Htip Htarget. rewrite Htip. simpl. rewrite Htarget. reflexivity.
    + intros size viewport fits Htip Htarget Hsize Hview Hfits.
      rewrite Htip. simpl. rewrite Htarget. simpl.
      rewrite Hsize. simpl. rewrite Hview. simpl. exact Hfits.
Qed.

End ShouldScrollFacts.

(** [shouldScroll] on the sample page: auto-scroll disabled; a foreign
    target allowed, with geometry helpers that would throw; and the naive
    mode, where the sample target is out of view and fits. *)
Lemma shouldScroll_cases_witness :
  shouldScroll sample_fitsWithin sample_getElementDims
    sample_isForeignTarget sample_isElementInView sample_getViewportDims
    (scroll_args (Some true) None None) = Ok false
  /\ shouldScroll failing2 failing1 sample_isForeignTarget failing3
       failing1 (scroll_args None (Some true) (Some "#step"%string))
     = Ok true
  /\ shouldScroll sample_fitsWithin sample_getElementDims
       sample_isForeignTarget sample_isElementInView sample_getViewportDims
       (scroll_args None None None) = Ok true.
Proof.
  split; [| split].
  - destruct (@shouldScroll_cases unit sample_fitsWithin
                sample_getElementDims sample_isForeignTarget
                sample_isElementInView sample_getViewportDims) as (H & _).
    apply H. right; right; right. reflexivity.
  - destruct (@shouldScroll_cases unit failing2 failing1
                sample_isForeignTarget failing3 failing1) as (_ & H & _).
    rewrite H; reflexivity.
  - destruct (@shouldScroll_cases unit sample_fitsWithin
                sample_getElementDims sample_isForeignTarget
                sample_isElementInView sample_getViewportDims)
      as (_ & _ & H).
    destruct (H (scroll_args None None None) eq_refl eq_refl eq_refl
                eq_refl eq_refl) as (_ & _ & Hfit).
    apply (Hfit sample_aDims {| width := 1024%float; height := 768%float |});
      reflexivity.
Defined.

(** ** [tooltipDesync] *)

Section TooltipDesyncFacts.
Variables Positioning Orientation : Type.
Variable dist : Coords float -> option (Coords float) -> Result float.
Variable getTooltipPosition :
  ShouldUpdateArgs Positioning -> Result (OrientationCoords Orientation).

(** C5: [tooltipDesync] is [false] when a target is present, whatever the
    recomputed position would be, and when root or tooltip is missing;
    otherwise it recomputes the position and is [true] exactly when the
    distance from the recomputed coordinates to the rendered position is
    not zero. *)
Theorem tooltipDesync_cases :
  (forall args : ShouldUpdateArgs Positioning,
      present (target args) = true \/ present (root args) = false
      \/ present (tooltip args) = false ->
      tooltipDesync dist getTooltipPosition args = Ok false)
  /\ (forall (args : ShouldUpdateArgs Positioning) newPosition moved,
         present (target args) = false -> present (root args) = true ->
         present (tooltip args) = true ->
         getTooltipPosition args = Ok newPosition ->
         dist (coords newPosition) (tooltipPosition args) = Ok moved ->
         tooltipDesync dist getTooltipPosition args
         = Ok (strict_ne moved 0)).
Proof.
  split.
  - intros args H. unfold tooltipDesync.
    destruct (present (target args)); [reflexivity |].
    destruct (present (root args)); [| reflexivity].
    destruct (present (tooltip args)); [| reflexivity].
    destruct H as [H | [H | H]]; discriminate H.
  - intros args newPosition moved Hg Hr Ht Hnew Hmoved.
    unfold tooltipDesync. rewrite Hg, Hr, Ht. simpl.
    rewrite Hnew. simpl. rewrite Hmoved. reflexivity.
Qed.

End TooltipDesyncFacts.

(** [tooltipDesync] on the sample page: a target present, with helpers
    that would throw; the centered tooltip where it should be; and the
    centered tooltip half a pixel off. *)
Lemma tooltipDesync_cases_witness :
  tooltipDesync (Orientation := string) failing2 failing1
    (scroll_args None None None) = Ok false
  /\ tooltipDesync sample_dist (sample_getTooltipPosition "center")
       (centered_args {| x := 462%float; y := 364%float |}) = Ok false
  /\ tooltipDesync sample_dist (sample_getTooltipPosition "center")
       (centered_args {| x := 462.5%float; y := 364%float |}) = Ok true.
Proof.
  split; [| split].
  - destruct (@tooltipDesync_cases unit string failing2 failing1)
      as (H & _).
    apply H. left. reflexivity.
  - destruct (@tooltipDesync_cases unit string sample_dist
                (sample_getTooltipPosition "center")) as (_ & H).
    rewrite (H (centered_args {| x := 462%float; y := 364%float |})
               {| orientation := "center"%string;
                  coords := {| x := 462%float; y := 364%float |} |}
               0%float); reflexivity.
  - destruct (@tooltipDesync_cases unit string sample_dist
                (sample_getTooltipPosition "center")) as (_ & H).
    rewrite (H (centered_args {| x := 462.5%float; y := 364%float |})
               {| orientation := "center"%string;
                  coords := {| x := 462%float; y := 364%float |} |}
               0.5%float); reflexivity.
Defined.

(** C10: without a target and with root and tooltip present, two
    recomputed positions with the same coordinates give the same answer,
    whatever their sides; and the answer is [false] when the recomputed
    coordinates are the rendered position (at distance zero from it). *)
Theorem tooltipDesync_ignores_orientation
    (Positioning Orientation : Type)
    (dist : Coords float -> option (Coords float) -> Result float)
    (getTooltipPosition getTooltipPosition' :
       ShouldUpdateArgs Positioning -> Result (OrientationCoords Orientation))
    (args : ShouldUpdateArgs Positioning)
    (newPosition newPosition' : OrientationCoords Orientation) :
  present (target args) = false ->
  present (root args) = true ->
  present (tooltip args) = true ->
  getTooltipPosition args = Ok newPosition ->
  getTooltipPosition' args = Ok newPosition' ->
  coords newPosition = coords newPosition' ->
  tooltipDesync dist getTooltipPosition args
  = tooltipDesync dist getTooltipPosition' args
  /\ (tooltipPosition args = Some (coords newPosition) ->
      dist (coords newPosition) (Some (coords newPosition)) = Ok 0%float ->
      tooltipDesync dist getTooltipPosition args = Ok false
      /\ tooltipDesync dist getTooltipPosition' args = Ok false).
Proof.
  intros Hg Hr Ht Hnew Hnew' Hsame.
  unfold tooltipDesync. rewrite Hg, Hr, Ht. simpl.
  rewrite Hnew, Hnew'. simpl. rewrite <- Hsame.
  split; [reflexivity |].
  intros Hpos Hzero. rewrite Hpos, Hzero. split; reflexivity.
Qed.

(** A centered tooltip rendered at (462, 364), with the side recomputed as
    [center] or as [north]. *)
Lemma tooltipDesync_ignores_orientation_witness :
  tooltipDesync sample_dist (sample_getTooltipPosition "center")
    (centered_args {| x := 462%float; y := 364%float |})
  = tooltipDesync sample_dist (sample_getTooltipPosition "north")
      (centered_args {| x := 462%float; y := 364%float |})
  /\ tooltipDesync sample_dist (sample_getTooltipPosition "north")
       (centered_args {| x := 462%float; y := 364%float |}) = Ok false.
Proof.
  destruct (@tooltipDesync_ignores_orientation unit string sample_dist
              (sample_getTooltipPosition "center")
              (sample_getTooltipPosition "north")
              (centered_args {| x := 462%float; y := 364%float |})
              {| orientation := "center"%string;
                 coords := {| x := 462%float; y := 364%float |} |}
              {| orientation := "north"%string;
                 coords := {| x := 462%float; y := 364%float |} |}
              eq_refl eq_refl eq_refl eq_refl eq_refl eq_refl)
    as (Hsame & Hfalse).
  split; [exact Hsame |].
  apply Hfalse; reflexivity.
Defined.

(** ** Listeners *)

Lemma refs_below_mono (k k' : nat) (ls : list Listener) :
  k <= k' -> refs_below k ls = true -> refs_below k' ls = true.
Proof.
  intros Hle. unfold refs_below. rewrite !forallb_forall.
  intros H l Hl. apply Nat.ltb_lt. specialize (H l Hl).
  apply Nat.ltb_lt in H. lia.
Qed.

Lemma refs_below_app (k : nat) (ls ls' : list Listener) :
  refs_below k (ls ++ ls') = refs_below k ls && refs_below k ls'.
Proof. unfold refs_below. apply forallb_app. Qed.

(** A closure made at [k] or later is not yet registered. *)
Lemma fresh_not_registered (k : nat) (ls : list Listener) (n : Element)
    (ty : string) (cb : Closure) :
  refs_below k ls = true -> k <= ref cb ->
  existsb (same_listener n ty cb) ls = false.
Proof.
  intros Hb Hk. induction ls as [| l ls IH]; [reflexivity |].
  simpl in *. apply andb_true_iff in Hb. destruct Hb as [Hl Hls].
  rewrite (IH Hls). unfold same_listener.
  apply Nat.ltb_lt in Hl.
  replace (Nat.eqb (ref (l_callback l)) (ref cb)) with false
    by (symmetry; apply Nat.eqb_neq; lia).
  rewrite andb_false_r. reflexivity.
Qed.

(** Removing it leaves the registered listeners as they are. *)
Lemma fresh_filter (k : nat) (ls : list Listener) (n : Element)
    (ty : string) (cb : Closure) :
  refs_below k ls = true -> k <= ref cb ->
  filter (fun l => negb (same_listener n ty cb l)) ls = ls.
Proof.
  intros Hb Hk. induction ls as [| l ls IH]; [reflexivity |].
  simpl in *. apply andb_true_iff in Hb. destruct Hb as [Hl Hls].
  rewrite (IH Hls). unfold same_listener.
  apply Nat.ltb_lt in Hl.
  replace (Nat.eqb (ref (l_callback l)) (ref cb)) with false
    by (symmetry; apply Nat.eqb_neq; lia).
  rewrite andb_false_r. reflexivity.
Qed.

Lemma same_listener_refl (l : Listener) :
  same_listener (l_node l) (l_type l) (l_callback l) l = true.
Proof.
  unfold same_listener.
  rewrite !Nat.eqb_refl, String.eqb_refl. reflexivity.
Qed.

(** ** What [setFocusTrap] installs *)

Section SetFocusTrapFacts.
Variable getEdgeFocusables :
  option Element -> option Element -> option bool -> Result Edges.

Lemma setFocusTrap_chained (dom : Dom) (tc t : Element)
    (disableMaskInteraction : option bool) (tooltipEdges targetEdges : Edges) :
  well_formed dom = true ->
  getEdgeFocusables (Some tc) (Some tc) None = Ok tooltipEdges ->
  getEdgeFocusables None (Some t) (Some true) = Ok targetEdges ->
  chained (Some t) disableMaskInteraction targetEdges = true ->
  let targetL :=
    targetTrapListener (next_ref dom) t tooltipEdges targetEdges in
  let tooltipL :=
    tooltipTrapListener (S (next_ref dom)) tc tooltipEdges
      (edge_end targetEdges) (edge_start targetEdges) in
  setFocusTrap getEdgeFocusables (Some tc) (Some t) disableMaskInteraction
    dom
  = Ok (Some {| c_target := Some t;
                c_targetTrapHandler := Some (l_callback targetL);
                c_tooltipContainer := Some tc;
                c_tooltipTrapHandler := l_callback tooltipL |},
        {| listeners := listeners dom ++ [targetL; tooltipL];
           next_ref := S (S (next_ref dom)) |}).
Proof.
  intros Hwf Htip Htarget Hchain targetL tooltipL.
  unfold setFocusTrap, bind, lift. simpl.
  rewrite Htip, Htarget.
  unfold chained in Hchain. simpl in Hchain. rewrite Hchain.
  unfold closure, method, addEventListener, ret. simpl.
  rewrite fresh_not_registered with (k := next_ref dom);
    [| exact Hwf | simpl; lia].
  simpl.
  rewrite fresh_not_registered with (k := S (next_ref dom)).
  - rewrite <- app_assoc. reflexivity.
  - rewrite refs_below_app. simpl.
    rewrite (refs_below_mono (k := next_ref dom)) by (auto; lia).
    rewrite (proj2 (Nat.ltb_lt _ _)) by lia. reflexivity.
  - simpl. lia.
Qed.

Lemma setFocusTrap_unchained (dom : Dom) (tc : Element)
    (target : option Element) (disableMaskInteraction : option bool)
    (tooltipEdges targetEdges : Edges) :
  well_formed dom = true ->
  getEdgeFocusables (Some tc) (Some tc) None = Ok tooltipEdges ->
  getEdgeFocusables None target (Some true) = Ok targetEdges ->
  chained target disableMaskInteraction targetEdges = false ->
  let tooltipL :=
    tooltipTrapListener (next_ref dom) tc tooltipEdges None None in
  setFocusTrap getEdgeFocusables (Some tc) target disableMaskInteraction
    dom
  = Ok (Some {| c_target := target;
                c_targetTrapHandler := None;
                c_tooltipContainer := Some tc;
                c_tooltipTrapHandler := l_callback tooltipL |},
        {| listeners := listeners dom ++ [tooltipL];
           next_ref := S (next_ref dom) |}).
Proof.
  intros Hwf Htip Htarget Hchain tooltipL.
  unfold setFocusTrap, bind, lift. simpl.
  rewrite Htip, Htarget.
  unfold chained in Hchain. rewrite Hchain.
  unfold closure, method, addEventListener, ret. simpl.
  rewrite fresh_not_registered with (k := next_ref dom);
    [| exact Hwf | simpl; lia].
  reflexivity.
Qed.

End SetFocusTrapFacts.

(** ** The trap handler *)

Section TrapHandlerFacts.
Variable TAB_KEYCODE : nat.

Lemma handler_other_key (args : FocusTrapArgs) (e : KeyboardEvent) :
  keyCode e <> TAB_KEYCODE -> getFocusTrapHandler TAB_KEYCODE args e = [].
Proof.
  intros Hkey. unfold getFocusTrapHandler.
  apply Nat.eqb_neq in Hkey. rewrite Hkey. reflexivity.
Qed.

Lemma handler_elsewhere (args : FocusTrapArgs) (e : KeyboardEvent) :
  isTarget e (start args) = false ->
  isTarget e (end_ args) = false ->
  isTarget e (lightningRod args) = false ->
  getFocusTrapHandler TAB_KEYCODE args e = [].
Proof.
  intros Hs He Hr. unfold getFocusTrapHandler.
  rewrite Hs, He, Hr, !andb_false_r.
  destruct (Nat.eqb (keyCode e) TAB_KEYCODE); reflexivity.
Qed.

Lemma handler_shiftTab_start (args : FocusTrapArgs) (s : Element) :
  start args = Some s ->
  getFocusTrapHandler TAB_KEYCODE args (shiftTab TAB_KEYCODE s)
  = PreventDefault ::
      (if present (beforeStart args) then focus (beforeStart args)
       else focus (end_ args)).
Proof.
  intros Hs. unfold getFocusTrapHandler, shiftTab, isTarget. simpl.
  rewrite Hs, !Nat.eqb_refl. reflexivity.
Qed.

Lemma handler_tab_end (args : FocusTrapArgs) (n : Element) :
  end_ args = Some n ->
  getFocusTrapHandler TAB_KEYCODE args (tab TAB_KEYCODE n)
  = PreventDefault ::
      (if present (afterEnd args) then focus (afterEnd args)
       else focus (start args)).
Proof.
  intros Hn. unfold getFocusTrapHandler, tab, isTarget. simpl.
  rewrite Hn, !Nat.eqb_refl. reflexivity.
Qed.

(** A Tab, with or without Shift, on the lightning rod, when the rod is
    neither end of the trap. *)
Lemma handler_lightningRod (args : FocusTrapArgs) (r : Element)
    (shift : bool) :
  lightningRod args = Some r ->
  start args <> Some r ->
  end_ args <> Some r ->
  getFocusTrapHandler TAB_KEYCODE args
    {| keyCode := TAB_KEYCODE; shiftKey := shift; evTarget := r |}
  = PreventDefault :: focus (start args).
Proof.
  intros Hr Hs He. unfold getFocusTrapHandler, isTarget. simpl.
  rewrite Hr, !Nat.eqb_refl.
  assert (Hs' : match start args with
                | Some n => Nat.eqb r n
                | None => false
                end = false).
  { destruct (start args) as [n|]; [| reflexivity].
    apply Nat.eqb_neq. congruence. }
  assert (He' : match end_ args with
                | Some n => Nat.eqb r n
                | None => false
                end = false).
  { destruct (end_ args) as [n|]; [| reflexivity].
    apply Nat.eqb_neq. congruence. }
  rewrite Hs', He', !andb_false_r. reflexivity.
Qed.

(** *** Dispatch *)

Lemma fire_cons (l : Listener) (ls : list Listener) (k : nat)
    (e : KeyboardEvent) (n : Element) :
  fire TAB_KEYCODE {| listeners := l :: ls; next_ref := k |} e n
  = (if Nat.eqb (l_node l) n && String.eqb (l_type l) "keydown" then
       handleKeydown TAB_KEYCODE (l_callback l) e
     else [])
    ++ fire TAB_KEYCODE {| listeners := ls; next_ref := k |} e n.
Proof. reflexivity. Qed.

Lemma fire_added (dom : Dom) (new : list Listener) (k : nat)
    (e : KeyboardEvent) (n : Element) :
  fire TAB_KEYCODE {| listeners := listeners dom ++ new; next_ref := k |} e n
  = fire TAB_KEYCODE dom e n
    ++ fire TAB_KEYCODE {| listeners := new; next_ref := k |} e n.
Proof. unfold fire. simpl. apply flat_map_app. Qed.

(** On a path along which nothing reacted, only the new listeners react. *)
Lemma dispatch_added (dom : Dom) (new : list Listener) (k : nat)
    (path : list Element) (e : KeyboardEvent) :
  dispatchKeydown TAB_KEYCODE dom path e = [] ->
  dispatchKeydown TAB_KEYCODE
    {| listeners := listeners dom ++ new; next_ref := k |} path e
  = dispatchKeydown TAB_KEYCODE {| listeners := new; next_ref := k |} path e.
Proof.
  unfold dispatchKeydown.
  induction path as [| n path IH]; intros Hquiet; [reflexivity |].
  simpl in *. apply app_eq_nil in Hquiet. destruct Hquiet as [Hn Hpath].
  rewrite fire_added, Hn, (IH Hpath). reflexivity.
Qed.

(** A listener whose handler does nothing on [e] may be left out. *)
Lemma dispatch_silent (l : Listener) (ls : list Listener) (k : nat)
    (path : list Element) (e : KeyboardEvent) :
  handleKeydown TAB_KEYCODE (l_callback l) e = [] ->
  dispatchKeydown TAB_KEYCODE {| listeners := l :: ls; next_ref := k |}
    path e
  = dispatchKeydown TAB_KEYCODE {| listeners := ls; next_ref := k |} path e.
Proof.
  intros Hsilent. unfold dispatchKeydown.
  induction path as [| n path IH]; [reflexivity |].
  simpl. rewrite fire_cons, Hsilent, IH.
  destruct (Nat.eqb (l_node l) n && String.eqb (l_type l) "keydown");
    reflexivity.
Qed.

Lemma dispatch_no_listener (k : nat) (path : list Element)
    (e : KeyboardEvent) :
  dispatchKeydown TAB_KEYCODE {| listeners := []; next_ref := k |} path e
  = [].
Proof.
  unfold dispatchKeydown. induction path as [| n path IH]; [reflexivity |].
  simpl. exact IH.
Qed.

(** A single keydown listener reacts once, when the event comes by its
    node. *)
Lemma dispatch_single (l : Listener) (k : nat) (path : list Element)
    (e : KeyboardEvent) :
  l_type l = "keydown"%string ->
  NoDup path -> In (l_node l) path ->
  dispatchKeydown TAB_KEYCODE {| listeners := [l]; next_ref := k |} path e
  = handleKeydown TAB_KEYCODE (l_callback l) e.
Proof.
  intros Hty Hnodup. unfold dispatchKeydown.
  induction Hnodup as [| n path Hnotin Hnodup IH]; intros Hin;
    [destruct Hin |].
  simpl. rewrite fire_cons, Hty. simpl. rewrite app_nil_r, andb_true_r.
  destruct Hin as [Hhere | Hlater].
  - subst n. rewrite Nat.eqb_refl.
    assert (Hrest :
      flat_map
        (fire TAB_KEYCODE {| listeners := [l]; next_ref := k |} e) path
      = []).
    { clear IH Hnodup. induction path as [| m path IH]; [reflexivity |].
      simpl. rewrite fire_cons, Hty. simpl.
      replace (Nat.eqb (l_node l) m) with false.
      - simpl. apply IH. intros Hin. apply Hnotin. right. exact Hin.
      - symmetry. apply Nat.eqb_neq. intros Heq. apply Hnotin.
        left. symmetry. exact Heq. }
    rewrite Hrest, app_nil_r. reflexivity.
  - replace (Nat.eqb (l_node l) n) with false.
    + simpl. apply IH. exact Hlater.
    + symmetry. apply Nat.eqb_neq. intros Heq. apply Hnotin.
      rewrite <- Heq. exact Hlater.
Qed.

End TrapHandlerFacts.

(** ** The installed trap *)

Section FocusTrapFacts.
Variable TAB_KEYCODE : nat.
Variable getEdgeFocusables :
  option Element -> option Element -> option bool -> Result Edges.

(** What a call that returned a cleanup has done to the page. *)
Lemma setFocusTrap_installed (dom dom' : Dom)
    (tooltipContainer target : option Element)
    (disableMaskInteraction : option bool) (cleanup : FocusTrapCleanup) :
  well_formed dom = true ->
  setFocusTrap getEdgeFocusables tooltipContainer target
    disableMaskInteraction dom = Ok (Some cleanup, dom') ->
  exists tc tooltipEdges targetEdges,
    tooltipContainer = Some tc
    /\ getEdgeFocusables (Some tc) (Some tc) None = Ok tooltipEdges
    /\ getEdgeFocusables None target (Some true) = Ok targetEdges
    /\ ((chained target disableMaskInteraction targetEdges = false
         /\ cleanup
            = {| c_target := target;
                 c_targetTrapHandler := None;
                 c_tooltipContainer := Some tc;
                 c_tooltipTrapHandler :=
                   l_callback (tooltipTrapListener (next_ref dom) tc
                                 tooltipEdges None None) |}
         /\ dom'
            = {| listeners :=
                   listeners dom
                   ++ [tooltipTrapListener (next_ref dom) tc tooltipEdges
                         None None];
                 next_ref := S (next_ref dom) |})
        \/ (exists t,
               target = Some t
               /\ chained target disableMaskInteraction targetEdges = true
               /\ cleanup
                  = {| c_target := Some t;
                       c_targetTrapHandler :=
                         Some (l_callback
                                 (targetTrapListener (next_ref dom) t
                                    tooltipEdges targetEdges));
                       c_tooltipContainer := Some tc;
                       c_tooltipTrapHandler :=
                         l_callback
                           (tooltipTrapListener (S (next_ref dom)) tc
                              tooltipEdges (edge_end targetEdges)
                              (edge_start targetEdges)) |}
               /\ dom'
                  = {| listeners :=
                         listeners dom
                         ++ [targetTrapListener (next_ref dom) t
                               tooltipEdges targetEdges;
                             tooltipTrapListener (S (next_ref dom)) tc
                               tooltipEdges (edge_end targetEdges)
                               (edge_start targetEdges)];
                       next_ref := S (S (next_ref dom)) |})).
Proof.
  intros Hwf Hset.
  destruct tooltipContainer as [tc|]; [| discriminate Hset].
  destruct (getEdgeFocusables (Some tc) (Some tc) None)
    as [tooltipEdges|] eqn:Htip;
    [| unfold setFocusTrap, bind, lift in Hset; simpl in Hset;
       rewrite Htip in Hset; discriminate Hset].
  destruct (getEdgeFocusables None target (Some true))
    as [targetEdges|] eqn:Htarget;
    [| unfold setFocusTrap, bind, lift in Hset; simpl in Hset;
       rewrite Htip, Htarget in Hset; discriminate Hset].
  exists tc, tooltipEdges, targetEdges.
  split; [reflexivity |].
  split; [exact Htip |].
  split; [reflexivity |].
  destruct (chained target disableMaskInteraction targetEdges) eqn:Hchain.
  - right. destruct target as [t|]; [| discriminate Hchain].
    exists t.
    rewrite (@setFocusTrap_chained getEdgeFocusables dom tc t
               disableMaskInteraction tooltipEdges targetEdges
               Hwf Htip Htarget Hchain) in Hset.
    injection Hset as Hc Hd. subst. repeat split; reflexivity.
  - left.
    rewrite (@setFocusTrap_unchained getEdgeFocusables dom tc target
               disableMaskInteraction tooltipEdges targetEdges
               Hwf Htip Htarget Hchain) in Hset.
    injection Hset as Hc Hd. subst. repeat split; reflexivity.
Qed.

(** C9: a trap handler does nothing on a key other than Tab, and nothing
    on a Tab whose target is none of its start, end and lightning rod; so
    along a path on which nothing reacted before, the handlers installed
    by [setFocusTrap] prevent nothing and focus nothing on such an event. *)
Theorem focus_trap_passes_through :
  (forall (args : FocusTrapArgs) (e : KeyboardEvent),
      keyCode e <> TAB_KEYCODE
      \/ (isTarget e (start args) = false
          /\ isTarget e (end_ args) = false
          /\ isTarget e (lightningRod args) = false) ->
      getFocusTrapHandler TAB_KEYCODE args e = [])
  /\ (forall dom dom' tc target disableMaskInteraction cleanup
             tooltipEdges targetEdges path e,
         well_formed dom = true ->
         getEdgeFocusables (Some tc) (Some tc) None = Ok tooltipEdges ->
         getEdgeFocusables None target (Some true) = Ok targetEdges ->
         setFocusTrap getEdgeFocusables (Some tc) target
           disableMaskInteraction dom = Ok (Some cleanup, dom') ->
         dispatchKeydown TAB_KEYCODE dom path e = [] ->
         keyCode e <> TAB_KEYCODE
         \/ (isTarget e (edge_start tooltipEdges) = false
             /\ isTarget e (edge_end tooltipEdges) = false
             /\ isTarget e (Some tc) = false
             /\ (chained target disableMaskInteraction targetEdges = true ->
                 isTarget e (edge_start targetEdges) = false
                 /\ isTarget e (edge_end targetEdges) = false)) ->
         dispatchKeydown TAB_KEYCODE dom' path e = []).
Proof.
  assert (Hhandler :
    forall (args : FocusTrapArgs) (e : KeyboardEvent),
      keyCode e <> TAB_KEYCODE
      \/ (isTarget e (start args) = false
          /\ isTarget e (end_ args) = false
          /\ isTarget e (lightningRod args) = false) ->
      getFocusTrapHandler TAB_KEYCODE args e = []).
  { intros args e [Hkey | (Hs & He & Hr)].
    - apply handler_other_key. exact Hkey.
    - apply handler_elsewhere; assumption. }
  split; [exact Hhandler |].
  intros dom dom' tc target disableMaskInteraction cleanup
         tooltipEdges targetEdges path e Hwf Htip Htarget Hset Hquiet Hev.
  destruct (@setFocusTrap_installed dom dom' (Some tc) target
              disableMaskInteraction cleanup Hwf Hset)
    as (tc' & tooltipEdges' & targetEdges' & Htc & Htip' & Htarget' & Hcase).
  injection Htc as <-.
  rewrite Htip in Htip'. injection Htip' as <-.
  rewrite Htarget in Htarget'. injection Htarget' as <-.
  destruct Hcase as [(Hchain & _ & ->) | (t & -> & Hchain & _ & ->)];
    rewrite dispatch_added by exact Hquiet.
  - rewrite dispatch_silent; [apply dispatch_no_listener |].
    apply Hhandler. destruct Hev as [Hkey | (Hs & He & Hr & _)];
      [left; exact Hkey | right; simpl; auto].
  - rewrite dispatch_silent;
      [rewrite dispatch_silent; [apply dispatch_no_listener |] |];
      apply Hhandler.
    + destruct Hev as [Hkey | (Hs & He & Hr & _)];
        [left; exact Hkey | right; simpl; auto].
    + destruct Hev as [Hkey | (_ & _ & _ & Hts)];
        [left; exact Hkey | right; simpl].
      destruct (Hts Hchain) as [Hs He]. auto.
Qed.

(** C7: the cleanup returned by [setFocusTrap] does not throw and leaves
    the page with the listeners it had before the trap was set: the
    tooltip container's listener is removed, the target's is removed when
    it was attached, and nothing else is; calling it once more does not
    throw either and changes nothing. *)
Theorem focus_trap_cleanup (dom dom' : Dom)
    (tooltipContainer target : option Element)
    (disableMaskInteraction : option bool) (cleanup : FocusTrapCleanup) :
  well_formed dom = true ->
  setFocusTrap getEdgeFocusables tooltipContainer target
    disableMaskInteraction dom = Ok (Some cleanup, dom') ->
  exists dom'',
    runFocusTrapCleanup cleanup dom' = Ok (tt, dom'')
    /\ listeners dom'' = listeners dom
    /\ runFocusTrapCleanup cleanup dom'' = Ok (tt, dom'').
Proof.
  intros Hwf Hset.
  destruct (@setFocusTrap_installed dom dom' tooltipContainer target
              disableMaskInteraction cleanup Hwf Hset)
    as (tc & tooltipEdges & targetEdges & _ & _ & _ & Hcase).
  assert (Hneq :
    forall k,
      match k with 0 => false | S m' => Nat.eqb k m' end = false).
  { intros k. change (Nat.eqb (S k) k = false). apply Nat.eqb_neq. lia. }
  destruct Hcase as [(_ & -> & ->) | (t & _ & _ & -> & ->)].
  - exists {| listeners := listeners dom; next_ref := S (next_ref dom) |}.
    unfold runFocusTrapCleanup, bind, method, removeEventListener, ret.
    destruct target as [t|]; simpl;
      rewrite filter_app;
      rewrite fresh_filter with (k := next_ref dom) (ls := listeners dom)
        by (try exact Hwf; simpl; lia);
      simpl; unfold same_listener; simpl;
      rewrite !Nat.eqb_refl; simpl; rewrite app_nil_r;
      repeat split; reflexivity.
  - exists {| listeners := listeners dom;
              next_ref := S (S (next_ref dom)) |}.
    unfold runFocusTrapCleanup, bind, method, removeEventListener, ret.
    simpl. rewrite !filter_app.
    rewrite !fresh_filter with (k := next_ref dom) (ls := listeners dom)
      by (try exact Hwf; simpl; lia).
    simpl; unfold same_listener; simpl.
    rewrite !Nat.eqb_refl, !Hneq, !andb_false_r. simpl.
    rewrite !Nat.eqb_refl. simpl. rewrite app_nil_r.
    repeat split; reflexivity.
Qed.

End FocusTrapFacts.

(** ** The ring *)

(** Rewrites with the disequalities of nodes at hand. *)
Ltac node_neq :=
  repeat match goal with
         | H : ?a <> ?b |- _ =>
             pose proof (proj2 (Nat.eqb_neq a b) H);
             pose proof (proj2 (Nat.eqb_neq b a) (not_eq_sym H));
             clear H
         end;
  repeat match goal with
         | H : Nat.eqb ?a ?b = false |- context [Nat.eqb ?a ?b] =>
             rewrite H
         end.

(** Runs a trap handler on a given event. *)
Ltac run_trap :=
  unfold handleKeydown, getFocusTrapHandler, tab, shiftTab, isTarget;
  simpl; rewrite ?Nat.eqb_refl; simpl; node_neq; simpl;
  rewrite ?andb_false_r; simpl.

Section FocusTrapRing.
Variable TAB_KEYCODE : nat.
Variable getEdgeFocusables :
  option Element -> option Element -> option bool -> Result Edges.

Lemma dispatch_silent_second (l1 l2 : Listener) (k : nat)
    (path : list Element) (e : KeyboardEvent) :
  handleKeydown TAB_KEYCODE (l_callback l2) e = [] ->
  dispatchKeydown TAB_KEYCODE {| listeners := [l1; l2]; next_ref := k |}
    path e
  = dispatchKeydown TAB_KEYCODE {| listeners := [l1]; next_ref := k |}
      path e.
Proof.
  intros Hsilent. unfold dispatchKeydown.
  induction path as [| n path IH]; [reflexivity |].
  simpl. rewrite !fire_cons, Hsilent, IH.
  destruct (Nat.eqb (l_node l2) n && String.eqb (l_type l2) "keydown");
    reflexivity.
Qed.

(** C3: with tooltip edge focusables [A] and [B], target edge focusables
    [C] and [D], a target and mask interaction not disabled, Shift-Tab on
    [A] focuses [D], Tab on [B] focuses [C], Tab on [D] focuses [A] and
    Shift-Tab on [C] focuses [B], each with the default prevented; without
    a chained target region, Tab on [B] focuses [A] and Shift-Tab on [A]
    focuses [B]; and a Tab, with or without Shift, on the tooltip container
    focuses [A].  The two regions are disjoint and the container is none of
    the four; the event travels along a path without repetition on which
    nothing reacted before the trap was set. *)
Theorem focus_trap_ring :
  (forall dom tc t disableMaskInteraction A B C D path,
      well_formed dom = true ->
      getEdgeFocusables (Some tc) (Some tc) None
      = Ok {| edge_start := Some A; edge_end := Some B |} ->
      getEdgeFocusables None (Some t) (Some true)
      = Ok {| edge_start := Some C; edge_end := Some D |} ->
      truthy disableMaskInteraction = false ->
      A <> C -> B <> D -> C <> tc -> D <> tc ->
      NoDup path ->
      (forall e, dispatchKeydown TAB_KEYCODE dom path e = []) ->
      exists cleanup dom',
        setFocusTrap getEdgeFocusables (Some tc) (Some t)
          disableMaskInteraction dom = Ok (Some cleanup, dom')
        /\ (In tc path ->
            dispatchKeydown TAB_KEYCODE dom' path (shiftTab TAB_KEYCODE A)
            = [PreventDefault; Focus D]
            /\ dispatchKeydown TAB_KEYCODE dom' path (tab TAB_KEYCODE B)
               = [PreventDefault; Focus C])
        /\ (In t path ->
            dispatchKeydown TAB_KEYCODE dom' path (tab TAB_KEYCODE D)
            = [PreventDefault; Focus A]
            /\ dispatchKeydown TAB_KEYCODE dom' path (shiftTab TAB_KEYCODE C)
               = [PreventDefault; Focus B])
        /\ (In tc path -> A <> tc -> B <> tc ->
            forall shift,
              dispatchKeydown TAB_KEYCODE dom' path
                {| keyCode := TAB_KEYCODE; shiftKey := shift;
                   evTarget := tc |}
              = [PreventDefault; Focus A]))
  /\ (forall dom tc target disableMaskInteraction A B targetEdges path,
         well_formed dom = true ->
         getEdgeFocusables (Some tc) (Some tc) None
         = Ok {| edge_start := Some A; edge_end := Some B |} ->
         getEdgeFocusables None target (Some true) = Ok targetEdges ->
         chained target disableMaskInteraction targetEdges = false ->
         NoDup path -> In tc path ->
         (forall e, dispatchKeydown TAB_KEYCODE dom path e = []) ->
         exists cleanup dom',
           setFocusTrap getEdgeFocusables (Some tc) target
             disableMaskInteraction dom = Ok (Some cleanup, dom')
           /\ dispatchKeydown TAB_KEYCODE dom' path (tab TAB_KEYCODE B)
              = [PreventDefault; Focus A]
           /\ dispatchKeydown TAB_KEYCODE dom' path (shiftTab TAB_KEYCODE A)
              = [PreventDefault; Focus B]
           /\ (A <> tc -> B <> tc ->
               forall shift,
                 dispatchKeydown TAB_KEYCODE dom' path
                   {| keyCode := TAB_KEYCODE; shiftKey := shift;
                      evTarget := tc |}
                 = [PreventDefault; Focus A])).
Proof.
  split.
  - intros dom tc t disableMaskInteraction A B C D path
           Hwf Htip Htarget Hmask HAC HBD HCtc HDtc Hnodup Hquiet.
    assert (Hchain :
      chained (Some t) disableMaskInteraction
        {| edge_start := Some C; edge_end := Some D |} = true)
      by (unfold chained; simpl; rewrite Hmask; reflexivity).
    eexists. eexists.
    split;
      [exact (@setFocusTrap_chained getEdgeFocusables dom tc t
                disableMaskInteraction _ _ Hwf Htip Htarget Hchain) |].
    split; [| split].
    + intros Htc. split.
      * rewrite dispatch_added by apply Hquiet.
        rewrite dispatch_silent by (run_trap; reflexivity).
        rewrite dispatch_single by (assumption || reflexivity).
        run_trap. reflexivity.
      * rewrite dispatch_added by apply Hquiet.
        rewrite dispatch_silent by (run_trap; reflexivity).
        rewrite dispatch_single by (assumption || reflexivity).
        run_trap. reflexivity.
    + intros Ht. split.
      * rewrite dispatch_added by apply Hquiet.
        rewrite dispatch_silent_second by (run_trap; reflexivity).
        rewrite dispatch_single by (assumption || reflexivity).
        run_trap. reflexivity.
      * rewrite dispatch_added by apply Hquiet.
        rewrite dispatch_silent_second by (run_trap; reflexivity).
        rewrite dispatch_single by (assumption || reflexivity).
        run_trap. reflexivity.
    + intros Htc HAtc HBtc shift.
      rewrite dispatch_added by apply Hquiet.
      rewrite dispatch_silent
        by (run_trap; destruct shift; reflexivity).
      rewrite dispatch_single by (assumption || reflexivity).
      unfold handleKeydown. simpl.
      apply handler_lightningRod; simpl; congruence.
  - intros dom tc target disableMaskInteraction A B targetEdges path
           Hwf Htip Htarget Hchain Hnodup Htc Hquiet.
    eexists. eexists.
    split;
      [exact (@setFocusTrap_unchained getEdgeFocusables dom tc target
                disableMaskInteraction _ _ Hwf Htip Htarget Hchain) |].
    split; [| split].
    + rewrite dispatch_added by apply Hquiet.
      rewrite dispatch_single by (assumption || reflexivity).
      run_trap. reflexivity.
    + rewrite dispatch_added by apply Hquiet.
      rewrite dispatch_single by (assumption || reflexivity).
      run_trap. reflexivity.
    + intros HAtc HBtc shift.
      rewrite dispatch_added by apply Hquiet.
      rewrite dispatch_single by (assumption || reflexivity).
      unfold handleKeydown. simpl.
      apply handler_lightningRod; simpl; congruence.
Qed.

End FocusTrapRing.

(** ** The sample trap *)

Lemma sample_path_NoDup : NoDup [2; 1; 0].
Proof.
  repeat constructor; simpl; intros H;
    repeat (destruct H as [H | H]; [discriminate H |]); exact H.
Qed.

(** The ring of the sample trap, and the sample trap with mask interaction
    disabled; the event passes the tooltip container, the target and the
    body. *)
Lemma focus_trap_ring_witness :
  (exists cleanup dom',
      setFocusTrap sample_getEdgeFocusables (Some 2) (Some 1) None
        empty_page = Ok (Some cleanup, dom')
      /\ dispatchKeydown 9 dom' [2; 1; 0] (shiftTab 9 10)
         = [PreventDefault; Focus 21]
      /\ dispatchKeydown 9 dom' [2; 1; 0] (tab 9 11)
         = [PreventDefault; Focus 20]
      /\ dispatchKeydown 9 dom' [2; 1; 0] (tab 9 21)
         = [PreventDefault; Focus 10]
      /\ dispatchKeydown 9 dom' [2; 1; 0] (shiftTab 9 20)
         = [PreventDefault; Focus 11]
      /\ dispatchKeydown 9 dom' [2; 1; 0] (tab 9 2)
         = [PreventDefault; Focus 10])
  /\ (exists cleanup dom',
         setFocusTrap sample_getEdgeFocusables (Some 2) (Some 1) (Some true)
           empty_page = Ok (Some cleanup, dom')
         /\ dispatchKeydown 9 dom' [2; 1; 0] (tab 9 11)
            = [PreventDefault; Focus 10]
         /\ dispatchKeydown 9 dom' [2; 1; 0] (shiftTab 9 10)
            = [PreventDefault; Focus 11]).
Proof.
  destruct (focus_trap_ring 9 sample_getEdgeFocusables)
    as [Hchained Hunchained].
  split.
  - destruct (Hchained empty_page 2 1 None 10 11 20 21 [2; 1; 0]
                eq_refl eq_refl eq_refl eq_refl
                ltac:(discriminate) ltac:(discriminate)
                ltac:(discriminate) ltac:(discriminate)
                sample_path_NoDup (fun e => eq_refl))
      as (cleanup & dom' & Hset & Htip & Htarget & Hrod).
    exists cleanup, dom'.
    destruct (Htip (or_introl eq_refl)) as [H1 H2].
    destruct (Htarget (or_intror (or_introl eq_refl))) as [H3 H4].
    pose proof (Hrod (or_introl eq_refl) ltac:(discriminate)
                  ltac:(discriminate) false) as H5.
    repeat split; assumption.
  - destruct (Hunchained empty_page 2 (Some 1) (Some true) 10 11
                {| edge_start := Some 20; edge_end := Some 21 |} [2; 1; 0]
                eq_refl eq_refl eq_refl eq_refl
                sample_path_NoDup (or_introl eq_refl) (fun e => eq_refl))
      as (cleanup & dom' & Hset & H1 & H2 & _).
    exists cleanup, dom'. repeat split; assumption.
Defined.

(** On the sample trap, Enter on node 10 and Tab on a node of neither
    region, node 3 inside the tooltip container, pass through. *)
Lemma focus_trap_passes_through_witness :
  getFocusTrapHandler 9
    {| start := Some 10; end_ := Some 11; beforeStart := Some 21;
       afterEnd := Some 20; lightningRod := Some 2 |}
    {| keyCode := 13; shiftKey := false; evTarget := 10 |} = []
  /\ exists cleanup dom',
       setFocusTrap sample_getEdgeFocusables (Some 2) (Some 1) None
         empty_page = Ok (Some cleanup, dom')
       /\ dispatchKeydown 9 dom' [3; 2; 0] (tab 9 3) = []
       /\ dispatchKeydown 9 dom' [10; 2; 0]
            {| keyCode := 13; shiftKey := true; evTarget := 10 |} = [].
Proof.
  destruct (focus_trap_passes_through 9 sample_getEdgeFocusables)
    as [Hhandler Hinstalled].
  split.
  - apply Hhandler. left. discriminate.
  - eexists. eexists. split; [vm_compute; reflexivity |]. split.
    + apply (Hinstalled empty_page _ 2 (Some 1) None _
               {| edge_start := Some 10; edge_end := Some 11 |}
               {| edge_start := Some 20; edge_end := Some 21 |}
               [3; 2; 0] (tab 9 3) eq_refl eq_refl eq_refl eq_refl eq_refl).
      right. repeat split; reflexivity.
    + apply (Hinstalled empty_page _ 2 (Some 1) None _
               {| edge_start := Some 10; edge_end := Some 11 |}
               {| edge_start := Some 20; edge_end := Some 21 |}
               [10; 2; 0]
               {| keyCode := 13; shiftKey := true; evTarget := 10 |}
               eq_refl eq_refl eq_refl eq_refl eq_refl).
      left. discriminate.
Defined.

(** The cleanup of the sample trap, with the target given and the trap on
    it not wired: once because mask interaction is disabled, once because
    the target (node 5) has no focusable. *)
Lemma focus_trap_cleanup_witness :
  (exists cleanup dom' dom'',
      setFocusTrap sample_getEdgeFocusables (Some 2) (Some 1) (Some true)
        empty_page = Ok (Some cleanup, dom')
      /\ c_targetTrapHandler cleanup = None
      /\ runFocusTrapCleanup cleanup dom' = Ok (tt, dom'')
      /\ listeners dom'' = []
      /\ runFocusTrapCleanup cleanup dom'' = Ok (tt, dom''))
  /\ (exists cleanup dom' dom'',
         setFocusTrap sample_getEdgeFocusables (Some 2) (Some 5) None
           empty_page = Ok (Some cleanup, dom')
         /\ c_targetTrapHandler cleanup = None
         /\ runFocusTrapCleanup cleanup dom' = Ok (tt, dom'')
         /\ listeners dom'' = []
         /\ runFocusTrapCleanup cleanup dom'' = Ok (tt, dom'')).
Proof.
  split.
  - destruct (@focus_trap_cleanup sample_getEdgeFocusables empty_page _
                (Some 2) (Some 1) (Some true) _ eq_refl eq_refl)
      as (dom'' & Hrun & Hsame & Hagain).
    eexists. eexists. exists dom''.
    split; [vm_compute; reflexivity |]. split; [reflexivity |].
    split; [exact Hrun |]. split; [exact Hsame | exact Hagain].
  - destruct (@focus_trap_cleanup sample_getEdgeFocusables empty_page _
                (Some 2) (Some 5) None _ eq_refl eq_refl)
      as (dom'' & Hrun & Hsame & Hagain).
    eexists. eexists. exists dom''.
    split; [vm_compute; reflexivity |]. split; [reflexivity |].
    split; [exact Hrun |]. split; [exact Hsame | exact Hagain].
Defined.

(** * Further properties *)

(** ** [shouldUpdate] *)

Lemma rbind_bool_id (r : Result bool) :
  rbind r (fun b => if b then Ok true else Ok false) = r.
Proof. destruct r as [[|]|]; reflexivity. Qed.

Section ShouldUpdateFacts.
Variables Positioning Orientation : Type.
Variable dist : Coords float -> option (Coords float) -> Result float.
Variable areaDiff : Dims float -> option (Dims float) -> Result float.
Variable fitsWithin : Dims float -> Dims float -> Result bool.
Variable getElementDims : option Element -> Result (Dims float).
Variable isForeignTarget : option Element -> option string -> Result bool.
Variable getTargetPosition :
  option Element -> option Element -> Result (Coords float).
Variable getTooltipPosition :
  ShouldUpdateArgs Positioning -> Result (OrientationCoords Orientation).
Variable isElementInView :
  option Element -> option Element -> option (Coords float) -> Result bool.
Variable getViewportDims : option Element -> Result (Dims float).

(** X1: [shouldUpdate] answers without calling any helper when root or
    tooltip is absent (then [false]), and, with both present, when the
    target is absent and coords and dims are cached or the target is
    present and neither is cached (then [true]). *)
Theorem shouldUpdate_without_measuring :
  (forall args : ShouldUpdateArgs Positioning,
      present (root args) = false \/ present (tooltip args) = false ->
      shouldUpdate dist areaDiff fitsWithin getElementDims isForeignTarget
        getTargetPosition getTooltipPosition isElementInView
        getViewportDims args = Ok false)
  /\ (forall args : ShouldUpdateArgs Positioning,
         present (root args) = true -> present (tooltip args) = true ->
         (present (target args) = false
          /\ present (targetCoords args) = true
          /\ present (targetDims args) = true)
         \/ (present (target args) = true
             /\ present (targetCoords args) = false
             /\ present (targetDims args) = false) ->
         shouldUpdate dist areaDiff fitsWithin getElementDims
           isForeignTarget getTargetPosition getTooltipPosition
           isElementInView getViewportDims args = Ok true).
Proof.
  split.
  - intros args H. unfold shouldUpdate.
    destruct (present (root args)); [| reflexivity].
    destruct (present (tooltip args)); [| reflexivity].
    destruct H as [H | H]; discriminate H.
  - intros args Hr Ht H. unfold shouldUpdate, targetChanged.
    rewrite Hr, Ht. simpl.
    destruct H as [(Hg & Hc & Hd) | (Hg & Hc & Hd)];
      rewrite Hg, Hc, Hd; reflexivity.
Qed.

(** X2: with root, tooltip and target present, [shouldUpdate] is
    [targetChanged], and when that is [false], [shouldScroll]; the tooltip
    position is not recomputed.  With auto-scroll disabled it is
    [targetChanged] alone. *)
Theorem shouldUpdate_with_target (args : ShouldUpdateArgs Positioning) :
  present (root args) = true ->
  present (tooltip args) = true ->
  present (target args) = true ->
  shouldUpdate dist areaDiff fitsWithin getElementDims isForeignTarget
    getTargetPosition getTooltipPosition isElementInView getViewportDims
    args
  = rbind (targetChanged dist areaDiff getElementDims getTargetPosition
             args)
      (fun changed =>
         if changed then Ok true
         else shouldScroll fitsWithin getElementDims isForeignTarget
                isElementInView getViewportDims args)
  /\ (truthy (disableAutoScroll args) = true ->
      shouldUpdate dist areaDiff fitsWithin getElementDims isForeignTarget
        getTargetPosition getTooltipPosition isElementInView
        getViewportDims args
      = targetChanged dist areaDiff getElementDims getTargetPosition args).
Proof.
  intros Hr Ht Hg.
  assert (Hmain :
    shouldUpdate dist areaDiff fitsWithin getElementDims isForeignTarget
      getTargetPosition getTooltipPosition isElementInView getViewportDims
      args
    = rbind (targetChanged dist areaDiff getElementDims getTargetPosition
               args)
        (fun changed =>
           if changed then Ok true
           else shouldScroll fitsWithin getElementDims isForeignTarget
                  isElementInView getViewportDims args)).
  { unfold shouldUpdate, tooltipDesync. rewrite Hr, Ht, Hg. simpl.
    destruct (targetChanged dist areaDiff getElementDims getTargetPosition
                args) as [[|]|]; simpl; try reflexivity.
    apply rbind_bool_id. }
  split; [exact Hmain |].
  intros Hdisabled. rewrite Hmain.
  assert (Hscroll :
    shouldScroll fitsWithin getElementDims isForeignTarget isElementInView
      getViewportDims args = Ok false).
  { unfold shouldScroll. rewrite Hr, Ht, Hg, Hdisabled. reflexivity. }
  rewrite Hscroll. apply rbind_bool_id.
Qed.

(** X3: with root and tooltip present and neither target nor cached coords
    nor cached dims, [shouldUpdate] is [tooltipDesync]: the recomputed
    position against the rendered one, with no measuring and no scroll
    helper called. *)
Theorem shouldUpdate_anchorless (args : ShouldUpdateArgs Positioning) :
  present (root args) = true ->
  present (tooltip args) = true ->
  present (target args) = false ->
  present (targetCoords args) = false ->
  present (targetDims args) = false ->
  shouldUpdate dist areaDiff fitsWithin getElementDims isForeignTarget
    getTargetPosition getTooltipPosition isElementInView getViewportDims
    args
  = rbind (getTooltipPosition args) (fun newPosition =>
    rbind (dist (coords newPosition) (tooltipPosition args)) (fun moved =>
    Ok (strict_ne moved 0))).
Proof.
  intros Hr Ht Hg Hc Hd.
  unfold shouldUpdate, targetChanged, shouldScroll, tooltipDesync.
  rewrite Hr, Ht, Hg, Hc, Hd. reflexivity.
Qed.

End ShouldUpdateFacts.

(** [shouldUpdate] on the sample page. *)
Lemma shouldUpdate_without_measuring_witness :
  shouldUpdate (Orientation := string) failing2 failing2 failing2 failing1
    failing2 failing2 failing1 failing3 failing1 (empty_args 0) = Ok false
  /\ shouldUpdate (Orientation := string) failing2 failing2 failing2
       failing1 failing2 failing2 failing1 failing3 failing1
       {| root := Some 0; tooltip := Some 2; target := Some 1;
          tooltipPosition := None; targetCoords := None;
          targetDims := None; rerenderTolerance := 5%float;
          disableAutoScroll := None; allowForeignTarget := None;
          selector := None; positioning := tt |} = Ok true.
Proof.
  destruct (@shouldUpdate_without_measuring unit string failing2 failing2
              failing2 failing1 failing2 failing2 failing1 failing3
              failing1) as [Habsent Hstale].
  split.
  - apply Habsent. left. reflexivity.
  - apply Hstale; try reflexivity. right. repeat split; reflexivity.
Defined.

Lemma shouldUpdate_with_target_witness :
  shouldUpdate sample_dist sample_areaDiff sample_fitsWithin
    sample_getElementDims sample_isForeignTarget sample_getTargetPosition
    (sample_getTooltipPosition "north") sample_isElementInView
    sample_getViewportDims (scroll_args (Some true) None None)
  = targetChanged sample_dist sample_areaDiff sample_getElementDims
      sample_getTargetPosition (scroll_args (Some true) None None).
Proof.
  apply (@shouldUpdate_with_target unit string sample_dist sample_areaDiff
           sample_fitsWithin sample_getElementDims sample_isForeignTarget
           sample_getTargetPosition (sample_getTooltipPosition "north")
           sample_isElementInView sample_getViewportDims
           (scroll_args (Some true) None None) eq_refl eq_refl eq_refl).
  reflexivity.
Defined.

Lemma shouldUpdate_anchorless_witness :
  shouldUpdate failing2 failing2 failing2 failing1 failing2 failing2
    (sample_getTooltipPosition "center") failing3 failing1
    (centered_args {| x := 462%float; y := 364%float |}) = Throw
  /\ shouldUpdate sample_dist failing2 failing2 failing1 failing2 failing2
       (sample_getTooltipPosition "center") failing3 failing1
       (centered_args {| x := 462.5%float; y := 364%float |}) = Ok true.
Proof.
  split.
  - rewrite (@shouldUpdate_anchorless unit string) by reflexivity.
    reflexivity.
  - rewrite (@shouldUpdate_anchorless unit string) by reflexivity.
    reflexivity.
Defined.

(** ** Offsets *)

(** Subtracting zero changes no number, not even in binary64. *)
Lemma float_sub_zero (a : float) : (a - 0)%float = a.
Proof.
  apply Prim2SF_inj. rewrite sub_spec.
  change (Prim2SF 0) with (S754_zero false).
  unfold SF64sub, SFsub.
  destruct (Prim2SF a) as [s|s| |s m e]; try reflexivity;
    destruct s; reflexivity.
Qed.

Section OffsetFacts.
Context {num : Type} {N : Number num}.
Variable document : Document num.
Variable getElementCoords : Element -> Result (Coords num).

Lemma addAppropriateOffset_body (c : Coords num) :
  addAppropriateOffset document getElementCoords
    (Some (body document)) (Some c)
  = Ok (Some
          {| x := nplus (x c)
                    (scrollLeft document (documentElement document));
             y := nplus (y c)
                    (scrollTop document (documentElement document)) |}).
Proof.
  unfold addAppropriateOffset, addScrollOffset, getCurrentScrollOffset.
  simpl. rewrite Nat.eqb_refl. reflexivity.
Qed.

Lemma addAppropriateOffset_container (r : Element)
    (c rootCoords : Coords num) :
  r <> body document ->
  getElementCoords r = Ok rootCoords ->
  addAppropriateOffset document getElementCoords (Some r) (Some c)
  = Ok (Some
          {| x := nplus (nminus (x c) (x rootCoords))
                    (scrollLeft document r);
             y := nplus (nminus (y c) (y rootCoords))
                    (scrollTop document r) |}).
Proof.
  intros Hr Hcoords.
  unfold addAppropriateOffset, addScrollOffset, getCurrentScrollOffset.
  simpl.
  replace (Nat.eqb (body document) r) with false
    by (symmetry; apply Nat.eqb_neq; congruence).
  simpl. rewrite Hcoords. reflexivity.
Qed.

Lemma addAppropriateOffset_unmeasured (r : Element) (c : Coords num) :
  r <> body document ->
  getElementCoords r = Throw ->
  addAppropriateOffset document getElementCoords (Some r) (Some c) = Throw.
Proof.
  intros Hr Hcoords. unfold addAppropriateOffset. simpl.
  replace (Nat.eqb (body document) r) with false
    by (symmetry; apply Nat.eqb_neq; congruence).
  simpl. rewrite Hcoords. reflexivity.
Qed.

(** X4: [addAppropriateOffset] returns [undefined] only for an absent
    argument.  For the body it adds the scroll offset of the document's
    root element and does not ask for the body's coordinates; for another
    root it subtracts the root's coordinates and adds the root's own scroll
    offset, and throws when the root cannot be measured. *)
Theorem addAppropriateOffset_value :
  (forall root coords,
      addAppropriateOffset document getElementCoords root coords = Ok None
      <-> root = None \/ coords = None)
  /\ (forall c,
         addAppropriateOffset document getElementCoords
           (Some (body document)) (Some c)
         = Ok (Some
                 {| x := nplus (x c)
                           (scrollLeft document (documentElement document));
                    y := nplus (y c)
                           (scrollTop document
                              (documentElement document)) |}))
  /\ (forall r c rootCoords,
         r <> body document ->
         getElementCoords r = Ok rootCoords ->
         addAppropriateOffset document getElementCoords (Some r) (Some c)
         = Ok (Some
                 {| x := nplus (nminus (x c) (x rootCoords))
                           (scrollLeft document r);
                    y := nplus (nminus (y c) (y rootCoords))
                           (scrollTop document r) |}))
  /\ (forall r c,
         r <> body document ->
         getElementCoords r = Throw ->
         addAppropriateOffset document getElementCoords (Some r) (Some c)
         = Throw).
Proof.
  split; [| split; [exact addAppropriateOffset_body
                   | split; [exact addAppropriateOffset_container
                            | exact addAppropriateOffset_unmeasured]]].
  intros root coords. split.
  - intros Hnone.
    destruct root as [r|]; [| left; reflexivity].
    destruct coords as [c|]; [| right; reflexivity].
    exfalso.
    destruct (Nat.eq_dec r (body document)) as [-> | Hr].
    + rewrite addAppropriateOffset_body in Hnone. discriminate Hnone.
    + destruct (getElementCoords r) as [rootCoords|] eqn:Hcoords.
      * rewrite (addAppropriateOffset_container c Hr Hcoords) in Hnone.
        discriminate Hnone.
      * rewrite (addAppropriateOffset_unmeasured c Hr Hcoords) in Hnone.
        discriminate Hnone.
  - intros [-> | ->]; [destruct coords | destruct root]; reflexivity.
Qed.

End OffsetFacts.

(** The sample container (node 7) and the sample body. *)
Lemma addAppropriateOffset_value_witness :
  addAppropriateOffset sample_document sample_getElementCoords (Some 7)
    (Some {| x := 115%float; y := 225%float |})
  = Ok (Some {| x := (115 - 15 + 30)%float; y := (225 - 25 + 40)%float |})
  /\ addAppropriateOffset sample_document failing1 (Some 7)
       (Some {| x := 115%float; y := 225%float |}) = Throw
  /\ (addAppropriateOffset sample_document sample_getElementCoords None
        (Some {| x := 115%float; y := 225%float |}) = Ok None).
Proof.
  destruct (@addAppropriateOffset_value float float_Number sample_document
              sample_getElementCoords) as (Hnone & _ & Hother & _).
  destruct (@addAppropriateOffset_value float float_Number sample_document
              failing1) as (_ & _ & _ & Hthrow).
  split; [| split].
  - apply (Hother 7 {| x := 115%float; y := 225%float |}
             {| x := 15%float; y := 25%float |}).
    + discriminate.
    + reflexivity.
  - apply Hthrow; [discriminate | reflexivity].
  - apply Hnone. left. reflexivity.
Defined.

Section GridOffsetFacts.
Variable document : Document float.
Variable getElementCoords : Element -> Result (Coords float).
Variable getViewportStart : Element -> Result (Coords float).
Variable getViewportDims : option Element -> Result (Dims float).

(** The numbers are multiples of [2^-q]. *)
Variable q : Z.

(** X5: on a page whose scroll offsets and measured coordinates are
    multiples [k * 2^-q] with [|k| < 2^50], [addAppropriateOffset] maps
    the coordinates of a root other than the body to that root's scroll
    offset, and moving such coordinates by such a [(dx, dy)] moves a
    result by [(dx, dy)], to the last bit. *)
Theorem addAppropriateOffset_exact :
  (0 <= q <= 1000)%Z ->
  (forall n, in_grid q (scrollLeft document n)
             /\ in_grid q (scrollTop document n)) ->
  (forall r rootCoords,
      getElementCoords r = Ok rootCoords -> coords_in_grid q rootCoords) ->
  (forall r rootCoords,
      r <> body document ->
      getElementCoords r = Ok rootCoords ->
      addAppropriateOffset document getElementCoords (Some r)
        (Some rootCoords)
      = Ok (Some {| x := scrollLeft document r;
                    y := scrollTop document r |}))
  /\ (forall root c dx dy res,
         coords_in_grid q c -> in_grid q dx -> in_grid q dy ->
         addAppropriateOffset document getElementCoords root (Some c)
         = Ok (Some res) ->
         addAppropriateOffset document getElementCoords root
           (Some {| x := (x c + dx)%float; y := (y c + dy)%float |})
         = Ok (Some {| x := (x res + dx)%float;
                       y := (y res + dy)%float |})).
Proof.
  intros Hq Hscroll Hmeasured.
  split.
  - intros r rootCoords Hr Hcoords.
    rewrite (@addAppropriateOffset_container float float_Number document
               getElementCoords r rootCoords rootCoords Hr Hcoords).
    destruct (Hmeasured r rootCoords Hcoords) as [Hx Hy].
    destruct (Hscroll r) as [Hl Ht].
    simpl.
    rewrite (@offset_axis_own q _ _ Hq Hx Hl).
    rewrite (@offset_axis_own q _ _ Hq Hy Ht).
    reflexivity.
  - intros root c dx dy res [Hcx Hcy] Hdx Hdy Hres.
    destruct root as [r|]; [| discriminate Hres].
    destruct (Nat.eq_dec r (body document)) as [-> | Hr].
    + rewrite addAppropriateOffset_body in Hres. injection Hres as <-.
      rewrite addAppropriateOffset_body. simpl.
      destruct (Hscroll (documentElement document)) as [Hl Ht].
      rewrite (@offset_axis_shift_body q _ _ _ Hq Hcx Hdx Hl).
      rewrite (@offset_axis_shift_body q _ _ _ Hq Hcy Hdy Ht).
      reflexivity.
    + destruct (getElementCoords r) as [rootCoords|] eqn:Hcoords.
      * rewrite (@addAppropriateOffset_container float float_Number document
                   getElementCoords r c rootCoords Hr Hcoords) in Hres.
        injection Hres as <-.
        rewrite (@addAppropriateOffset_container float float_Number document
                   getElementCoords r _ rootCoords Hr Hcoords).
        destruct (Hmeasured r rootCoords Hcoords) as [Hx Hy].
        destruct (Hscroll r) as [Hl Ht].
        simpl.
        rewrite (@offset_axis_shift q _ _ _ _ Hq Hcx Hdx Hx Hl).
        rewrite (@offset_axis_shift q _ _ _ _ Hq Hcy Hdy Hy Ht).
        reflexivity.
      * rewrite (@addAppropriateOffset_unmeasured float float_Number
                   document getElementCoords r c Hr Hcoords) in Hres.
        discriminate Hres.
Qed.

(** X6: for coordinates and sizes that are multiples [k * 2^-q] with
    [|k| < 2^50], centring [b] on [d] and then [d] on the result gives
    back where [d] was, and a box centred on a box of its own size stays
    where that box is, to the last bit. *)
Theorem applyCenterOffset_inverse (a : Coords float) (d b : Dims float) :
  (0 <= q < 1000)%Z ->
  coords_in_grid q a -> dims_in_grid q d -> dims_in_grid q b ->
  applyCenterOffset (applyCenterOffset a d b) b d = a
  /\ applyCenterOffset a d d = a.
Proof.
  intros Hq [Hax Hay] [Hdw Hdh] [Hbw Hbh].
  destruct a as [ax ay], d as [dw dh], b as [bw bh].
  unfold applyCenterOffset. simpl in *.
  rewrite (@center_axis_back q ax dw bw Hq Hax Hdw Hbw).
  rewrite (@center_axis_back q ay dh bh Hq Hay Hdh Hbh).
  rewrite (@center_axis_same q ax dw Hq Hax Hdw).
  rewrite (@center_axis_same q ay dh Hq Hay Hdh).
  split; reflexivity.
Qed.

(** X7: when the measures are multiples [k * 2^-q] with [|k| < 2^50],
    the viewport put where [centerElementInViewport] says has the
    element's centre for its own, and the element put where
    [getViewportCenter] says has the viewport's centre for its own, to the
    last bit. *)
Theorem viewport_centering_exact (root : Element) (element : Element) :
  (0 <= q < 1000)%Z ->
  let elementDims :=
    {| width := rect_width (getBoundingClientRect document element);
       height := rect_height (getBoundingClientRect document element) |} in
  dims_in_grid q elementDims ->
  (forall elementCoords viewportDims,
      getElementCoords element = Ok elementCoords ->
      getViewportDims (Some root) = Ok viewportDims ->
      coords_in_grid q elementCoords -> dims_in_grid q viewportDims ->
      exists res,
        centerElementInViewport document getElementCoords getViewportDims
          (Some root) (Some element) = Ok res
        /\ boxCenter res viewportDims = boxCenter elementCoords elementDims)
  /\ (forall startCoords viewportDims,
         getViewportStart root = Ok startCoords ->
         getViewportDims (Some root) = Ok viewportDims ->
         coords_in_grid q startCoords -> dims_in_grid q viewportDims ->
         exists res,
           getViewportCenter document getViewportStart getViewportDims
             (Some root) (Some element) = Ok (Some res)
           /\ boxCenter res elementDims = boxCenter startCoords viewportDims).
Proof.
  intros Hq elementDims [Hew Heh]. subst elementDims. simpl in Hew, Heh.
  split.
  - intros elementCoords viewportDims Hcoords Hdims [Hx Hy] [Hvw Hvh].
    unfold centerElementInViewport. simpl.
    rewrite Hcoords. simpl. rewrite Hdims. simpl.
    eexists. split; [reflexivity |].
    unfold boxCenter, applyCenterOffset. simpl.
    rewrite (@center_axis q _ _ _ Hq Hx Hew Hvw).
    rewrite (@center_axis q _ _ _ Hq Hy Heh Hvh).
    reflexivity.
  - intros startCoords viewportDims Hstart Hdims [Hx Hy] [Hvw Hvh].
    unfold getViewportCenter. simpl.
    rewrite Hstart. simpl. rewrite Hdims. simpl.
    eexists. split; [reflexivity |].
    unfold boxCenter, applyCenterOffset. simpl.
    rewrite (@center_axis q _ _ _ Hq Hx Hvw Hew).
    rewrite (@center_axis q _ _ _ Hq Hy Hvh Heh).
    reflexivity.
Qed.

End GridOffsetFacts.

(** The sample page is made of whole numbers. *)
Lemma sample_document_in_grid (n : Element) :
  in_grid 0 (scrollLeft sample_document n)
  /\ in_grid 0 (scrollTop sample_document n).
Proof.
  simpl. destruct (Nat.eqb n 7).
  - split; [exists 30%Z | exists 40%Z]; (split; [lia | reflexivity]).
  - destruct (Nat.eqb n 100);
      (split; [exists 0%Z | first [exists 250%Z; split; [lia | reflexivity]
                                  | exists 0%Z]]);
      (split; [lia | reflexivity]).
Qed.

Lemma sample_getElementCoords_in_grid (r : Element)
    (rootCoords : Coords float) :
  sample_getElementCoords r = Ok rootCoords -> coords_in_grid 0 rootCoords.
Proof.
  intros Hcoords. injection Hcoords as <-.
  split; [exists 15%Z | exists 25%Z]; (split; [lia | reflexivity]).
Qed.

(** The sample container: its own coordinates; and the body: a point
    moved by (3, 4). *)
Lemma addAppropriateOffset_exact_witness :
  addAppropriateOffset sample_document sample_getElementCoords (Some 7)
    (Some {| x := 15%float; y := 25%float |})
  = Ok (Some {| x := 30%float; y := 40%float |})
  /\ addAppropriateOffset sample_document sample_getElementCoords (Some 0)
       (Some {| x := (115 + 3)%float; y := (225 + 4)%float |})
     = Ok (Some {| x := (115 + 0 + 3)%float; y := (225 + 250 + 4)%float |}).
Proof.
  destruct (@addAppropriateOffset_exact sample_document
              sample_getElementCoords 0%Z ltac:(lia)
              sample_document_in_grid sample_getElementCoords_in_grid)
    as [Hown Hmove].
  split.
  - apply (Hown 7 {| x := 15%float; y := 25%float |}).
    + discriminate.
    + reflexivity.
  - apply (Hmove (Some 0) {| x := 115%float; y := 225%float |}
             3%float 4%float
             {| x := (115 + 0)%float; y := (225 + 250)%float |}).
    + split; [exists 115%Z | exists 225%Z]; (split; [lia | reflexivity]).
    + exists 3%Z. split; [lia | reflexivity].
    + exists 4%Z. split; [lia | reflexivity].
    + reflexivity.
Defined.

(** Half pixels: the sample target at (10.5, 0) and the sample tooltip. *)
Lemma applyCenterOffset_inverse_witness :
  applyCenterOffset
    (applyCenterOffset sample_halfCoords sample_aDims sample_bDims)
    sample_bDims sample_aDims
  = sample_halfCoords
  /\ applyCenterOffset sample_halfCoords sample_aDims sample_aDims
     = sample_halfCoords.
Proof.
  apply (@applyCenterOffset_inverse 1).
  - lia.
  - split; [exists 21%Z | exists 0%Z]; (split; [lia | reflexivity]).
  - split; [exists 20%Z | exists 40%Z]; (split; [lia | reflexivity]).
  - split; [exists 200%Z | exists 80%Z]; (split; [lia | reflexivity]).
Defined.

(** The sample element, 200 by 100 at (15, 25), and the sample viewport,
    1024 by 768, which starts at (0, 250). *)
Lemma viewport_centering_exact_witness :
  (exists res,
      centerElementInViewport sample_document sample_getElementCoords
        sample_getViewportDims (Some 0) (Some 5) = Ok res
      /\ boxCenter res {| width := 1024%float; height := 768%float |}
         = boxCenter {| x := 15%float; y := 25%float |}
             {| width := 200%float; height := 100%float |})
  /\ (exists res,
         getViewportCenter sample_document
           (fun _ => Ok {| x := 0%float; y := 250%float |})
           sample_getViewportDims (Some 0) (Some 5) = Ok (Some res)
         /\ boxCenter res {| width := 200%float; height := 100%float |}
            = boxCenter {| x := 0%float; y := 250%float |}
                {| width := 1024%float; height := 768%float |}).
Proof.
  assert (Hviewport :
    dims_in_grid 0 {| width := 1024%float; height := 768%float |})
    by (split; [exists 1024%Z | exists 768%Z]; (split; [lia | reflexivity])).
  destruct (@viewport_centering_exact sample_document
              sample_getElementCoords
              (fun _ => Ok {| x := 0%float; y := 250%float |})
              sample_getViewportDims 0%Z 0 5 ltac:(lia))
    as [Hcentered Hcenter].
  - split; [exists 200%Z | exists 100%Z]; (split; [lia | reflexivity]).
  - split.
    + apply (Hcentered {| x := 15%float; y := 25%float |}
               {| width := 1024%float; height := 768%float |});
        [reflexivity | reflexivity | | exact Hviewport].
      split; [exists 15%Z | exists 25%Z]; (split; [lia | reflexivity]).
    + apply (Hcenter {| x := 0%float; y := 250%float |}
               {| width := 1024%float; height := 768%float |});
        [reflexivity | reflexivity | | exact Hviewport].
      split; [exists 0%Z | exists 250%Z]; (split; [lia | reflexivity]).
Defined.

(** X8: without a root [getViewportCenter] returns [undefined] and asks
    the viewport nothing; with a root and no element it returns the centre
    of the viewport, the start plus half the dims, exactly: the
    subtraction of the absent element's half size rounds nothing in
    binary64. *)
Theorem getViewportCenter_without_element
    (document : Document float)
    (getViewportStart : Element -> Result (Coords float))
    (getViewportDims : option Element -> Result (Dims float)) :
  (forall element,
      getViewportCenter document getViewportStart getViewportDims None
        element = Ok None)
  /\ (forall root,
         getViewportCenter document getViewportStart getViewportDims
           (Some root) None
         = rbind (getViewportStart root) (fun startCoords =>
           rbind (getViewportDims (Some root)) (fun viewportDims =>
           Ok (Some (boxCenter startCoords viewportDims))))).
Proof.
  split; [reflexivity |].
  intros root. unfold getViewportCenter. simpl.
  destruct (getViewportStart root) as [startCoords|]; [| reflexivity].
  simpl.
  destruct (getViewportDims (Some root)) as [viewportDims|];
    [| reflexivity].
  simpl. unfold applyCenterOffset, boxCenter. simpl.
  change (0 / 2)%float with 0%float.
  rewrite !float_sub_zero. reflexivity.
Qed.

(** ** Where a trap sends the focus *)

Section TrapFocusFacts.
Variable TAB_KEYCODE : nat.
Variable getEdgeFocusables :
  option Element -> option Element -> option bool -> Result Edges.

(** A handler does nothing, or prevents the default and focuses one of
    the elements of its trap; the focus call throws only where the trap has
    no start or no end. *)
Lemma handler_effects (args : FocusTrapArgs) (e : KeyboardEvent) :
  getFocusTrapHandler TAB_KEYCODE args e = []
  \/ exists el,
       getFocusTrapHandler TAB_KEYCODE args e = PreventDefault :: focus el
       /\ (el = start args \/ el = end_ args
           \/ (present el = true
               /\ (el = beforeStart args \/ el = afterEnd args))).
Proof.
  unfold getFocusTrapHandler.
  destruct (Nat.eqb (keyCode e) TAB_KEYCODE); [| left; reflexivity].
  destruct (shiftKey e && isTarget e (start args)).
  - right. destruct (present (beforeStart args)) eqn:Hb.
    + exists (beforeStart args). split; [reflexivity | intuition].
    + exists (end_ args). split; [reflexivity | intuition].
  - destruct (negb (shiftKey e) && isTarget e (end_ args)).
    + right. destruct (present (afterEnd args)) eqn:Ha.
      * exists (afterEnd args). split; [reflexivity | intuition].
      * exists (start args). split; [reflexivity | intuition].
    + destruct (isTarget e (lightningRod args)).
      * right. exists (start args). split; [reflexivity | intuition].
      * left. reflexivity.
Qed.

(** An effect of a dispatch is an effect of one of the listeners. *)
Lemma dispatch_effect_origin (ls : list Listener) (k : nat)
    (path : list Element) (e : KeyboardEvent) (eff : Effect) :
  In eff (dispatchKeydown TAB_KEYCODE
            {| listeners := ls; next_ref := k |} path e) ->
  exists l, In l ls /\ In eff (handleKeydown TAB_KEYCODE (l_callback l) e).
Proof.
  unfold dispatchKeydown, fire. simpl. intros Hin.
  apply in_flat_map in Hin. destruct Hin as (n & _ & Hin).
  apply in_flat_map in Hin. destruct Hin as (l & Hl & Hin).
  exists l. split; [exact Hl |].
  destruct (Nat.eqb (l_node l) n && String.eqb (l_type l) "keydown");
    [exact Hin | destruct Hin].
Qed.

(** X9: along a path on which nothing reacted before, whatever key event
    comes, the handlers [setFocusTrap] installed only ever prevent the
    default and focus an edge focusable of the tooltip or, when the target
    is chained, of the target; a focus call throws only when the tooltip
    has no first or no last focusable. *)
Theorem installed_trap_keeps_focus_inside
    (dom dom' : Dom) (tc : Element) (target : option Element)
    (disableMaskInteraction : option bool) (cleanup : FocusTrapCleanup)
    (tooltipEdges targetEdges : Edges) (path : list Element)
    (e : KeyboardEvent) (eff : Effect) :
  well_formed dom = true ->
  getEdgeFocusables (Some tc) (Some tc) None = Ok tooltipEdges ->
  getEdgeFocusables None target (Some true) = Ok targetEdges ->
  setFocusTrap getEdgeFocusables (Some tc) target disableMaskInteraction
    dom = Ok (Some cleanup, dom') ->
  dispatchKeydown TAB_KEYCODE dom path e = [] ->
  In eff (dispatchKeydown TAB_KEYCODE dom' path e) ->
  eff = PreventDefault
  \/ (exists n,
         eff = Focus n
         /\ (Some n = edge_start tooltipEdges
             \/ Some n = edge_end tooltipEdges
             \/ (chained target disableMaskInteraction targetEdges = true
                 /\ (Some n = edge_start targetEdges
                     \/ Some n = edge_end targetEdges))))
  \/ (eff = Uncaught
      /\ (edge_start tooltipEdges = None \/ edge_end tooltipEdges = None)).
Proof.
  intros Hwf Htip Htarget Hset Hquiet Hin.
  destruct (@setFocusTrap_installed getEdgeFocusables dom dom' (Some tc)
              target disableMaskInteraction cleanup Hwf Hset)
    as (tc' & tooltipEdges' & targetEdges' & Htc & Htip' & Htarget' & Hcase).
  injection Htc as <-.
  rewrite Htip in Htip'. injection Htip' as <-.
  rewrite Htarget in Htarget'. injection Htarget' as <-.
  assert (Hfocus :
    forall el : option Element,
      In eff (PreventDefault :: focus el) ->
      eff = PreventDefault
      \/ (exists n, eff = Focus n /\ el = Some n)
      \/ (eff = Uncaught /\ el = None)).
  { intros [n|] [H | [H | []]]; subst; eauto. }
  destruct Hcase as [(Hchain & _ & ->) | (t & -> & Hchain & _ & ->)];
    rewrite dispatch_added in Hin by exact Hquiet;
    apply dispatch_effect_origin in Hin;
    destruct Hin as (l & Hl & Hin).
  - destruct Hl as [<- | []].
    unfold handleKeydown in Hin. simpl in Hin.
    destruct (handler_effects
                {| start := edge_start tooltipEdges;
                   end_ := edge_end tooltipEdges;
                   beforeStart := None; afterEnd := None;
                   lightningRod := Some tc |} e)
      as [Hnil | (el & Heq & Hel)];
      [rewrite Hnil in Hin; destruct Hin |].
    rewrite Heq in Hin. simpl in Hel.
    destruct (Hfocus el Hin) as [H | [(n & H & Hn) | (H & Hn)]].
    + left. exact H.
    + right. left. exists n. split; [exact H |]. subst el.
      intuition congruence.
    + right. right. split; [exact H |]. subst el.
      simpl in Hel. intuition congruence.
  - assert (Hchained := Hchain).
    unfold chained in Hchain. simpl in Hchain.
    apply andb_true_iff in Hchain. destruct Hchain as [Hchain Hlast].
    apply andb_true_iff in Hchain. destruct Hchain as [Hmask Hfirst].
    destruct Hl as [<- | [<- | []]];
      unfold handleKeydown in Hin; simpl in Hin.
    + destruct (handler_effects
                  {| start := edge_start targetEdges;
                     end_ := edge_end targetEdges;
                     beforeStart := edge_end tooltipEdges;
                     afterEnd := edge_start tooltipEdges;
                     lightningRod := None |} e)
        as [Hnil | (el & Heq & Hel)];
        [rewrite Hnil in Hin; destruct Hin |].
      rewrite Heq in Hin. simpl in Hel.
      destruct (Hfocus el Hin) as [H | [(n & H & Hn) | (H & Hn)]].
      * left. exact H.
      * right. left. exists n. split; [exact H |]. subst el.
        intuition congruence.
      * exfalso. subst el. simpl in Hel.
        destruct (edge_start targetEdges); [| discriminate Hfirst].
        destruct (edge_end targetEdges); [| discriminate Hlast].
        intuition congruence.
    + destruct (handler_effects
                  {| start := edge_start tooltipEdges;
                     end_ := edge_end tooltipEdges;
                     beforeStart := edge_end targetEdges;
                     afterEnd := edge_start targetEdges;
                     lightningRod := Some tc |} e)
        as [Hnil | (el & Heq & Hel)];
        [rewrite Hnil in Hin; destruct Hin |].
      rewrite Heq in Hin. simpl in Hel.
      destruct (Hfocus el Hin) as [H | [(n & H & Hn) | (H & Hn)]].
      * left. exact H.
      * right. left. exists n. split; [exact H |]. subst el.
        intuition congruence.
      * right. right. split; [exact H |]. subst el. simpl in Hel.
        intuition congruence.
Qed.

End TrapFocusFacts.

(** The sample trap: Tab on node 11 focuses node 20, the target's first
    focusable. *)
Lemma installed_trap_keeps_focus_inside_witness :
  Focus 20 = PreventDefault
  \/ (exists n,
         Focus 20 = Focus n
         /\ (Some n = Some 10 \/ Some n = Some 11
             \/ (chained (Some 1) None
                   {| edge_start := Some 20; edge_end := Some 21 |} = true
                 /\ (Some n = Some 20 \/ Some n = Some 21))))
  \/ (Focus 20 = Uncaught /\ (Some 10 = None \/ Some 11 = None)).
Proof.
  exact (@installed_trap_keeps_focus_inside 9 sample_getEdgeFocusables
           empty_page _ 2 (Some 1) None _
           {| edge_start := Some 10; edge_end := Some 11 |}
           {| edge_start := Some 20; edge_end := Some 21 |}
           [2; 1; 0] (tab 9 11) (Focus 20)
           eq_refl eq_refl eq_refl eq_refl eq_refl
           (or_intror (or_introl eq_refl))).
Defined.

(** ** Advancing on a click *)

Lemma setNextOnTargetClick_registers (dom : Dom) (t : Element)
    (next : Callback) (validateNext : option Callback) :
  well_formed dom = true ->
  let handler :=
    {| ref := next_ref dom;
       code := ClickHandler (Some t) next validateNext |} in
  setNextOnTargetClick (Some t) next validateNext dom
  = Ok (Some {| cc_target := Some t; cc_clickHandler := handler |},
        {| listeners :=
             listeners dom
             ++ [{| l_node := t; l_type := "click";
                    l_callback := handler |}];
           next_ref := S (next_ref dom) |}).
Proof.
  intros Hwf handler.
  unfold setNextOnTargetClick, bind, closure, method, addEventListener, ret.
  simpl.
  rewrite fresh_not_registered with (k := next_ref dom);
    [reflexivity | exact Hwf | simpl; lia].
Qed.

(** Removing the click listener that was registered last. *)
Lemma remove_last_registered (dom : Dom) (t : Element) (c : Code) :
  well_formed dom = true ->
  let handler := {| ref := next_ref dom; code := c |} in
  filter (fun l => negb (same_listener t "click" handler l))
    (listeners dom
     ++ [{| l_node := t; l_type := "click"; l_callback := handler |}])
  = listeners dom.
Proof.
  intros Hwf handler. rewrite filter_app.
  rewrite fresh_filter with (k := next_ref dom) (ls := listeners dom);
    [| exact Hwf | simpl; lia].
  simpl. unfold same_listener. simpl.
  rewrite !Nat.eqb_refl. simpl. apply app_nil_r.
Qed.

(** X10: on a present target [setNextOnTargetClick] registers one click
    listener, the handler that holds target, [next] and [validateNext];
    the closure it returns removes that listener and nothing else, and may
    be called again. *)
Theorem setNextOnTargetClick_round_trip (dom : Dom) (t : Element)
    (next : Callback) (validateNext : option Callback) :
  well_formed dom = true ->
  exists cleanup dom' dom'',
    setNextOnTargetClick (Some t) next validateNext dom
    = Ok (Some cleanup, dom')
    /\ code (cc_clickHandler cleanup) = ClickHandler (Some t) next validateNext
    /\ listeners dom'
       = listeners dom
         ++ [{| l_node := t; l_type := "click";
                l_callback := cc_clickHandler cleanup |}]
    /\ runClickCleanup cleanup dom' = Ok (tt, dom'')
    /\ listeners dom'' = listeners dom
    /\ runClickCleanup cleanup dom'' = Ok (tt, dom'').
Proof.
  intros Hwf.
  eexists. eexists.
  exists {| listeners := listeners dom; next_ref := S (next_ref dom) |}.
  split; [apply (@setNextOnTargetClick_registers dom t next validateNext Hwf) |].
  split; [reflexivity |]. split; [reflexivity |].
  unfold runClickCleanup, method, removeEventListener. simpl.
  rewrite (@remove_last_registered dom t
             (ClickHandler (Some t) next validateNext) Hwf).
  split; [reflexivity |]. split; [reflexivity |].
  rewrite fresh_filter with (k := next_ref dom) (ls := listeners dom);
    [reflexivity | exact Hwf | simpl; lia].
Qed.

Section ClickFacts.
Variable call_next : Callback -> option bool -> Run.
Variable call_validateNext :
  Callback -> MouseEvent -> Dom -> Dom * Result bool.

(** X11: a click on the handler [setNextOnTargetClick] registered never
    throws.  Advancing is: [next(true)] is called, and when it returns the
    handler takes itself off the target on the page [next] left and the
    promise is fulfilled; when [next] throws the promise is rejected and
    the listener stays.  Without a validator the click advances before it
    returns.  With a validator the click calls it and returns without
    calling [next]; once the validator's promise has settled, on the page
    as it is by then, the handler advances when it resolved to [true],
    does nothing when it resolved to [false], and does nothing but reject
    its own promise when it rejected.  When [next] leaves the listeners as
    they were after the registration, advancing leaves them as they were
    before it. *)
Theorem click_advances_once (dom : Dom) (t : Element) (next : Callback)
    (validateNext : option Callback) (event : MouseEvent) :
  well_formed dom = true ->
  exists cleanup dom',
    setNextOnTargetClick (Some t) next validateNext dom
    = Ok (Some cleanup, dom')
    /\ code (cc_clickHandler cleanup) = ClickHandler (Some t) next validateNext
    /\ (let click :=
          clickHandler call_next call_validateNext (cc_clickHandler cleanup)
            (Some t) next validateNext event in
        let advance := fun page : Dom =>
          match call_next next (Some true) page with
          | (Ok _, page1) =>
              (Fulfilled,
               {| listeners :=
                    filter
                      (fun l =>
                         negb (same_listener t "click"
                                 (cc_clickHandler cleanup) l))
                      (listeners page1);
                  next_ref := next_ref page1 |})
          | (Throw, page1) => (Rejected, page1)
          end in
        (validateNext = None ->
         forall page,
           click page = Finished (fst (advance page)) (snd (advance page)))
        /\ (forall v,
               validateNext = Some v ->
               forall page,
               exists resume,
                 click page
                 = Awaiting (fst (call_validateNext v event page)) resume
                 /\ forall later,
                      resume later
                      = match snd (call_validateNext v event page) with
                        | Ok true => advance later
                        | Ok false => (Fulfilled, later)
                        | Throw => (Rejected, later)
                        end)
        /\ (forall page page1,
               call_next next (Some true) page = (Ok tt, page1) ->
               listeners page1 = listeners dom' ->
               listeners (snd (advance page)) = listeners dom)).
Proof.
  intros Hwf.
  eexists. eexists.
  split; [apply (@setNextOnTargetClick_registers dom t next validateNext Hwf) |].
  split; [reflexivity |].
  simpl.
  split; [| split].
  - intros -> page. unfold clickHandler, takeActionIfValid, settle. simpl.
    destruct (call_next next (Some true) page) as [[[]|] page1]; reflexivity.
  - intros v -> page. unfold clickHandler, takeActionIfValid.
    destruct (call_validateNext v event page) as [page0 valid].
    eexists. split; [reflexivity |].
    intros later. simpl. destruct valid as [[|]|]; try reflexivity.
    unfold settle.
    destruct (call_next next (Some true) later) as [[[]|] page1]; reflexivity.
  - intros page page1 Hnext Hsame. rewrite Hnext. simpl. rewrite Hsame.
    simpl.
    apply (@remove_last_registered dom t
             (ClickHandler (Some t) next validateNext) Hwf).
Qed.

End ClickFacts.

(** The sample host, on the page without listeners: a registration and
    its removal; and a click with validator 1, which accepts: the click
    returns, and [next] is called when the rest of the handler runs. *)
Lemma setNextOnTargetClick_round_trip_witness :
  exists cleanup dom' dom'',
    setNextOnTargetClick (Some 1) 0 None empty_page = Ok (Some cleanup, dom')
    /\ code (cc_clickHandler cleanup) = ClickHandler (Some 1) 0 None
    /\ listeners dom'
       = [{| l_node := 1; l_type := "click";
             l_callback := cc_clickHandler cleanup |}]
    /\ runClickCleanup cleanup dom' = Ok (tt, dom'')
    /\ listeners dom'' = []
    /\ runClickCleanup cleanup dom'' = Ok (tt, dom'').
Proof.
  exact (@setNextOnTargetClick_round_trip empty_page 1 0 None eq_refl).
Defined.

Lemma click_advances_once_witness :
  exists cleanup dom' resume page2,
    setNextOnTargetClick (Some 1) 0 (Some 1) empty_page
    = Ok (Some cleanup, dom')
    /\ clickHandler sample_call_next sample_call_validateNext
         (cc_clickHandler cleanup) (Some 1) 0 (Some 1) {| clickTarget := 1 |}
         dom'
       = Awaiting dom' resume
    /\ resume dom' = (Fulfilled, page2)
    /\ listeners page2 = [].
Proof.
  destruct (@click_advances_once sample_call_next sample_call_validateNext
              empty_page 1 0 (Some 1) {| clickTarget := 1 |} eq_refl)
    as (cleanup & dom' & Hset & _ & _ & Hvalidated & Hback).
  destruct (Hvalidated 1 eq_refl dom') as (resume & Hclick & Hresume).
  exists cleanup, dom', resume. eexists.
  split; [exact Hset |]. split; [exact Hclick |].
  split; [rewrite Hresume; reflexivity |].
  exact (Hback dom' dom' eq_refl eq_refl).
Defined.

(** ** Timers *)

Section DebounceFacts.
Variable T : Type.
Variable interval : option float.

Lemma debounce_call_invariant (timeoutId : option nat) (w : Window T)
    (armed : option T) (args : T) :
  debounce_invariant interval timeoutId w armed ->
  debounce_invariant interval (fst (debounce interval timeoutId args w))
    (snd (debounce interval timeoutId args w)) (Some args)
  /\ ran (snd (debounce interval timeoutId args w)) = ran w.
Proof.
  intros [Hpos Htimers]. unfold debounce, debounce_invariant.
  assert (Hcleared :
    timers (if truthy_handle timeoutId then
              match timeoutId with
              | Some h => clearTimer h w
              | None => w
              end
            else w) = []).
  { destruct armed as [a|].
    - destruct Htimers as (h & -> & Hh & Htimers). simpl.
      replace (Nat.eqb h 0) with false
        by (symmetry; apply Nat.eqb_neq; exact Hh).
      simpl. rewrite Htimers. simpl. rewrite Nat.eqb_refl. reflexivity.
    - destruct timeoutId as [h|]; simpl; [| exact Htimers].
      destruct (Nat.eqb h 0); simpl; rewrite Htimers; reflexivity. }
  assert (Hsame :
    next_handle (if truthy_handle timeoutId then
                   match timeoutId with
                   | Some h => clearTimer h w
                   | None => w
                   end
                 else w) = next_handle w
    /\ ran (if truthy_handle timeoutId then
              match timeoutId with
              | Some h => clearTimer h w
              | None => w
              end
            else w) = ran w).
  { destruct timeoutId as [h|]; simpl; [| split; reflexivity].
    destruct (Nat.eqb h 0); split; reflexivity. }
  destruct Hsame as [Hnext Hran].
  simpl. rewrite Hcleared, Hnext, Hran. simpl.
  split; [| reflexivity].
  split; [discriminate |].
  exists (next_handle w). repeat split; [exact Hpos].
Qed.

Lemma debounce_run_call (events : list (DebounceEvent T)) (args : T)
    (timeoutId : option nat) (w : Window T) :
  debounce_run interval (Call args :: events) timeoutId w
  = debounce_run interval events
      (fst (debounce interval timeoutId args w))
      (snd (debounce interval timeoutId args w)).
Proof. reflexivity. Qed.

Lemma debounce_run_refines (events : list (DebounceEvent T))
    (timeoutId : option nat) (w : Window T) (armed : option T) :
  debounce_invariant interval timeoutId w armed ->
  debounce_invariant interval
    (fst (debounce_run interval events timeoutId w))
    (snd (debounce_run interval events timeoutId w))
    (armed_after events armed)
  /\ ran (snd (debounce_run interval events timeoutId w))
     = ran w ++ last_calls_fire events armed.
Proof.
  revert timeoutId w armed.
  induction events as [| [args|] events IH]; intros timeoutId w armed Hinv.
  - simpl. rewrite app_nil_r. split; [exact Hinv | reflexivity].
  - rewrite debounce_run_call.
    destruct (debounce_call_invariant args Hinv) as [Hinv' Hran].
    destruct (IH _ _ (Some args) Hinv') as [Hfinal Hcalls].
    split; [exact Hfinal |]. rewrite Hcalls, Hran. reflexivity.
  - change (debounce_run interval (TimersFire T :: events) timeoutId w)
      with (debounce_run interval events timeoutId (timersFire w)).
    change (armed_after (TimersFire T :: events) armed)
      with (armed_after events None).
    assert (Hfired :
      debounce_invariant interval timeoutId (timersFire w) None
      /\ ran (timersFire w)
         = ran w ++ match armed with Some a => [a] | None => [] end).
    { destruct Hinv as [Hpos Htimers]. unfold debounce_invariant.
      destruct armed as [a|].
      - destruct Htimers as (h & _ & _ & Htimers).
        unfold timersFire. simpl. rewrite Htimers. simpl. auto.
      - unfold timersFire. simpl. rewrite Htimers. simpl. auto. }
    destruct Hfired as [Hinv' Hran].
    destruct (IH timeoutId (timersFire w) None Hinv') as [Hfinal Hcalls].
    split; [exact Hfinal |]. rewrite Hcalls, Hran.
    destruct armed as [a|]; simpl; rewrite <- app_assoc; reflexivity.
Qed.

(** X12: a function made by [debounce], in a window with positive handles
    and no timer pending, called and fired upon in any order: [f] has
    received exactly the last call of every run of calls that the timers
    then fired on, in order and once each; and what is pending is the one
    timeout of the last call, after the interval (300 by default), if no
    firing came after it, and nothing otherwise. *)
Theorem debounce_fires_last_call (events : list (DebounceEvent T))
    (w : Window T) :
  timers w = [] ->
  next_handle w <> 0 ->
  ran (snd (debounce_run interval events None w))
  = ran w ++ last_calls_fire events None
  /\ match armed_after events None with
     | Some args =>
         exists h,
           fst (debounce_run interval events None w) = Some h
           /\ timers (snd (debounce_run interval events None w))
              = [{| handle := h; kind := Once;
                    delay := debounce_interval interval; thunk := args |}]
     | None => timers (snd (debounce_run interval events None w)) = []
     end.
Proof.
  intros Hnone Hpos.
  destruct (@debounce_run_refines events None w None (conj Hpos Hnone))
    as [[_ Htimers] Hran].
  split; [exact Hran |].
  destruct (armed_after events None) as [args|]; [| exact Htimers].
  destruct Htimers as (h & Hid & _ & Htimers). exists h. auto.
Qed.

End DebounceFacts.

(** Five calls in a row and then the interval: [f] gets the fifth; a sixth
    call is left waiting. *)
Lemma debounce_fires_last_call_witness :
  ran (snd (debounce_run (Some 100%float)
              [Call 1; Call 2; Call 3; Call 4; Call 5; TimersFire nat;
               Call 6]
              None {| timers := []; next_handle := 1; ran := [] |}))
  = [5]
  /\ exists h,
       fst (debounce_run (Some 100%float)
              [Call 1; Call 2; Call 3; Call 4; Call 5; TimersFire nat;
               Call 6]
              None {| timers := []; next_handle := 1; ran := [] |})
       = Some h
       /\ timers (snd (debounce_run (Some 100%float)
                         [Call 1; Call 2; Call 3; Call 4; Call 5;
                          TimersFire nat; Call 6]
                         None
                         {| timers := []; next_handle := 1; ran := [] |}))
          = [{| handle := h; kind := Once; delay := 100%float;
                thunk := 6 |}].
Proof.
  exact (@debounce_fires_last_call nat (Some 100%float)
           [Call 1; Call 2; Call 3; Call 4; Call 5; TimersFire nat; Call 6]
           {| timers := []; next_handle := 1; ran := [] |}
           eq_refl ltac:(discriminate)).
Defined.






(** ** The update listener *)

Lemma window_remove_added (ev : option string) (f : Callback)
    (ls : list (string * Callback)) :
  existsb (same_window_listener (event_type ev) f) ls = false ->
  filter (fun l => negb (same_window_listener (event_type ev) f l))
    (ls ++ [(event_type ev, f)]) = ls.
Proof.
  intros Hnew. rewrite filter_app. simpl.
  unfold same_window_listener at 2. simpl.
  rewrite String.eqb_refl, Nat.eqb_refl. simpl. rewrite app_nil_r.
  induction ls as [| l ls IH]; [reflexivity |].
  simpl in *. apply orb_false_iff in Hnew. destruct Hnew as [Hl Hls].
  rewrite Hl. simpl. rewrite (IH Hls). reflexivity.
Qed.

Lemma window_removed_is_gone (ty : string) (f : Callback)
    (ls : list (string * Callback)) :
  existsb (same_window_listener ty f)
    (filter (fun l => negb (same_window_listener ty f l)) ls) = false.
Proof.
  induction ls as [| l ls IH]; [reflexivity |].
  simpl. destruct (same_window_listener ty f l) eqn:Hl; simpl.
  - exact IH.
  - rewrite Hl, IH. reflexivity.
Qed.

(** With a custom function missing, the window is used, and [update]
    listens there afterwards. *)
Lemma setTourUpdateListener_window_only (args : SetTourUpdateListenerArgs)
    (w : WindowEvents) :
  customSetListener args = None \/ customRemoveListener args = None ->
  setTourUpdateListener args w
  = (WindowDetach (spread_event args) (update args),
     window_addEventListener (spread_event args) (update args) w)
  /\ existsb
       (same_window_listener (event_type (spread_event args)) (update args))
       (window_listeners (snd (setTourUpdateListener args w))) = true.
Proof.
  intros Hmissing.
  assert (Hwindow :
    setTourUpdateListener args w
    = (WindowDetach (spread_event args) (update args),
       window_addEventListener (spread_event args) (update args) w)).
  { unfold setTourUpdateListener.
    destruct Hmissing as [H | H]; rewrite H;
      [| destruct (customSetListener args)]; reflexivity. }
  split; [exact Hwindow |].
  rewrite Hwindow. simpl. unfold window_addEventListener.
  destruct (existsb _ (window_listeners w)) eqn:Hold; simpl.
  - exact Hold.
  - rewrite existsb_app. simpl. unfold same_window_listener at 2. simpl.
    rewrite String.eqb_refl, Nat.eqb_refl. simpl.
    apply orb_true_r.
Qed.

(** X14: with both custom functions, [setTourUpdateListener] calls the
    custom setter on [update] and its closure calls the custom remover on
    [update]; the window's listeners are not touched, whatever [event] is.
    With one of the two missing the other is never called and the window
    is used. *)
Theorem setTourUpdateListener_custom (args : SetTourUpdateListenerArgs)
    (w w' : WindowEvents) :
  (forall set remove,
      customSetListener args = Some set ->
      customRemoveListener args = Some remove ->
      window_listeners (snd (setTourUpdateListener args w))
      = window_listeners w
      /\ host_calls (snd (setTourUpdateListener args w))
         = host_calls w ++ [(set, update args)]
      /\ window_listeners
           (runUpdateDetach (fst (setTourUpdateListener args w)) w')
         = window_listeners w'
      /\ host_calls
           (runUpdateDetach (fst (setTourUpdateListener args w)) w')
         = host_calls w' ++ [(remove, update args)])
  /\ (customSetListener args = None \/ customRemoveListener args = None ->
      host_calls (snd (setTourUpdateListener args w)) = host_calls w
      /\ host_calls
           (runUpdateDetach (fst (setTourUpdateListener args w)) w')
         = host_calls w'
      /\ existsb
           (same_window_listener (event_type (spread_event args))
              (update args))
           (window_listeners (snd (setTourUpdateListener args w))) = true).
Proof.
  split.
  - intros set remove Hset Hremove. unfold setTourUpdateListener.
    rewrite Hset, Hremove. simpl. repeat split; reflexivity.
  - intros Hmissing.
    destruct (setTourUpdateListener_window_only args w Hmissing)
      as [Hwindow Hlistens].
    split; [| split; [| exact Hlistens]].
    + rewrite Hwindow. simpl. unfold window_addEventListener.
      destruct (existsb _ (window_listeners w)); reflexivity.
    + rewrite Hwindow. reflexivity.
Qed.

(** X15: the window is listened to for [resize] when the arguments have no
    [event] property, for the given type when they have one, and for the
    type named [undefined] when the property is there with the value
    [undefined]: a property that is present replaces the default, whatever
    its value. *)
Theorem setTourUpdateListener_event (u : Callback)
    (set remove : option Callback) (w : WindowEvents) :
  set = None \/ remove = None ->
  let listens (ev : option (option string)) (ty : string) :=
    existsb (same_window_listener ty u)
      (window_listeners
         (snd (setTourUpdateListener
                 {| update := u; customSetListener := set;
                    customRemoveListener := remove; event := ev |} w)))
  in
  listens None "resize"%string = true
  /\ (forall ty, listens (Some (Some ty)) ty = true)
  /\ listens (Some None) "undefined"%string = true
  /\ (existsb (same_window_listener "resize" u) (window_listeners w) = false ->
      listens (Some None) "resize"%string = false
      /\ (forall ty, ty <> "resize"%string ->
                     listens (Some (Some ty)) "resize"%string = false)).
Proof.
  intros Hmissing listens.
  assert (Hlistens :
    forall ev,
      listens ev (event_type
                    (spread_event
                       {| update := u; customSetListener := set;
                          customRemoveListener := remove; event := ev |}))
      = true).
  { intros ev.
    destruct (@setTourUpdateListener_window_only
                {| update := u; customSetListener := set;
                   customRemoveListener := remove; event := ev |} w)
      as [_ H]; [exact Hmissing | exact H]. }
  split; [exact (Hlistens None) |].
  split; [intros ty; exact (Hlistens (Some (Some ty))) |].
  split; [exact (Hlistens (Some None)) |].
  intros Hold.
  assert (Hother :
    forall ev,
      String.eqb (event_type ev) "resize" = false ->
      listens (Some ev) "resize"%string = false).
  { intros ev Hty. unfold listens, setTourUpdateListener. simpl.
    assert (Hbranch :
      snd (match set, remove with
           | Some s, Some r =>
               (CustomDetach r u,
                call_host s u w)
           | _, _ =>
               (WindowDetach ev u, window_addEventListener ev u w)
           end) = window_addEventListener ev u w).
    { destruct Hmissing as [-> | ->]; [| destruct set]; reflexivity. }
    unfold spread_event. simpl. rewrite Hbranch.
    unfold window_addEventListener.
    destruct (existsb (same_window_listener (event_type ev) u)
                (window_listeners w)); [exact Hold |].
    simpl. rewrite existsb_app, Hold. simpl.
    unfold same_window_listener. simpl. rewrite Hty. reflexivity. }
  split.
  - apply Hother. reflexivity.
  - intros ty Hty. apply Hother. simpl. apply String.eqb_neq. exact Hty.
Qed.

(** X16: on the window, detaching undoes attaching when [update] did not
    listen for that event type before.  When it did, attaching changes
    nothing and detaching takes that earlier registration away.  Either
    way [update] does not listen for the type any more after the detach. *)
Theorem setTourUpdateListener_detach (args : SetTourUpdateListenerArgs)
    (w : WindowEvents) :
  customSetListener args = None \/ customRemoveListener args = None ->
  let attached := snd (setTourUpdateListener args w) in
  let detached :=
    runUpdateDetach (fst (setTourUpdateListener args w)) attached in
  let listened :=
    existsb
      (same_window_listener (event_type (spread_event args)) (update args))
      (window_listeners w) in
  (listened = false -> detached = w)
  /\ (listened = true ->
      attached = w
      /\ window_listeners detached
         = filter
             (fun l =>
                negb (same_window_listener
                        (event_type (spread_event args)) (update args) l))
             (window_listeners w))
  /\ existsb
       (same_window_listener (event_type (spread_event args)) (update args))
       (window_listeners detached) = false.
Proof.
  intros Hmissing attached detached listened.
  destruct (setTourUpdateListener_window_only args w Hmissing)
    as [Hwindow _].
  unfold detached, attached. rewrite Hwindow. simpl.
  unfold window_addEventListener. fold listened.
  split; [| split].
  - intros Hnew. rewrite Hnew. unfold window_removeEventListener. simpl.
    rewrite (window_remove_added _ _ _ Hnew). destruct w; reflexivity.
  - intros Hold. rewrite Hold. split; reflexivity.
  - destruct listened; simpl; apply window_removed_is_gone.
Qed.

(** A window on which nothing listens: the custom pair 3 and 4 with the
    update 5; then no custom pair. *)
Lemma setTourUpdateListener_custom_witness :
  host_calls
    (runUpdateDetach
       (fst (setTourUpdateListener
               {| update := 5; customSetListener := Some 3;
                  customRemoveListener := Some 4; event := None |}
               {| window_listeners := []; host_calls := [] |}))
       (snd (setTourUpdateListener
               {| update := 5; customSetListener := Some 3;
                  customRemoveListener := Some 4; event := None |}
               {| window_listeners := []; host_calls := [] |})))
  = [(3, 5); (4, 5)]
  /\ host_calls
       (snd (setTourUpdateListener
               {| update := 5; customSetListener := Some 3;
                  customRemoveListener := None; event := None |}
               {| window_listeners := []; host_calls := [] |})) = [].
Proof.
  split.
  - destruct (@setTourUpdateListener_custom
                {| update := 5; customSetListener := Some 3;
                   customRemoveListener := Some 4; event := None |}
                {| window_listeners := []; host_calls := [] |}
                (snd (setTourUpdateListener
                        {| update := 5; customSetListener := Some 3;
                           customRemoveListener := Some 4; event := None |}
                        {| window_listeners := []; host_calls := [] |})))
      as [Hcustom _].
    destruct (Hcustom 3 4 eq_refl eq_refl) as (_ & _ & _ & Hcalls).
    exact Hcalls.
  - destruct (@setTourUpdateListener_custom
                {| update := 5; customSetListener := Some 3;
                   customRemoveListener := None; event := None |}
                {| window_listeners := []; host_calls := [] |}
                {| window_listeners := []; host_calls := [] |})
      as [_ Hwindow].
    destruct (Hwindow (or_intror eq_refl)) as (Hcalls & _ & _).
    exact Hcalls.
Defined.

Lemma setTourUpdateListener_event_witness :
  window_listeners
    (snd (setTourUpdateListener
            {| update := 5; customSetListener := None;
               customRemoveListener := None; event := Some None |}
            {| window_listeners := []; host_calls := [] |}))
  = [("undefined"%string, 5)]
  /\ existsb (same_window_listener "resize" 5)
       (window_listeners
          (snd (setTourUpdateListener
                  {| update := 5; customSetListener := None;
                     customRemoveListener := None; event := Some None |}
                  {| window_listeners := []; host_calls := [] |})))
     = false.
Proof.
  destruct (@setTourUpdateListener_event 5 None None
              {| window_listeners := []; host_calls := [] |}
              (or_introl eq_refl)) as (_ & _ & _ & Hnot).
  split; [reflexivity |].
  exact (proj1 (Hnot eq_refl)).
Defined.

(** The update 5 listens for [resize] already: attaching it again and
    detaching leaves it not listening. *)
Lemma setTourUpdateListener_detach_witness :
  window_listeners
    (runUpdateDetach
       (fst (setTourUpdateListener
               {| update := 5; customSetListener := None;
                  customRemoveListener := None; event := None |}
               {| window_listeners := [("resize"%string, 5)];
                  host_calls := [] |}))
       (snd (setTourUpdateListener
               {| update := 5; customSetListener := None;
                  customRemoveListener := None; event := None |}
               {| window_listeners := [("resize"%string, 5)];
                  host_calls := [] |})))
  = []
  /\ runUpdateDetach
       (fst (setTourUpdateListener
               {| update := 5; customSetListener := None;
                  customRemoveListener := None; event := None |}
               {| window_listeners := [("scroll"%string, 5)];
                  host_calls := [] |}))
       (snd (setTourUpdateListener
               {| update := 5; customSetListener := None;
                  customRemoveListener := None; event := None |}
               {| window_listeners := [("scroll"%string, 5)];
                  host_calls := [] |}))
     = {| window_listeners := [("scroll"%string, 5)]; host_calls := [] |}.
Proof.
  split.
  - destruct (@setTourUpdateListener_detach
                {| update := 5; customSetListener := None;
                   customRemoveListener := None; event := None |}
                {| window_listeners := [("resize"%string, 5)];
                   host_calls := [] |} (or_introl eq_refl))
      as (_ & Hold & _).
    exact (proj2 (Hold eq_refl)).
  - destruct (@setTourUpdateListener_detach
                {| update := 5; customSetListener := None;
                   customRemoveListener := None; event := None |}
                {| window_listeners := [("scroll"%string, 5)];
                   host_calls := [] |} (or_introl eq_refl))
      as (Hnew & _ & _).
    exact (Hnew eq_refl).
Defined.

(** ** Identifiers *)

Lemma append_empty (s : string) : (s ++ EmptyString)%string = s.
Proof.
  induction s as [| c s IH]; [reflexivity |]. simpl. rewrite IH. reflexivity.
Qed.

Lemma prefix_append (s t : string) : String.prefix s (s ++ t) = true.
Proof.
  induction s as [| c s IH]; simpl.
  - destruct t; reflexivity.
  - destruct (Ascii.ascii_dec c c) as [_ | Hc]; [exact IH | congruence].
Qed.

Lemma length_append (s t : string) :
  String.length (s ++ t) = String.length s + String.length t.
Proof.
  induction s as [| c s IH]; [reflexivity |]. simpl. rewrite IH. reflexivity.
Qed.

(** X17: [getIdString] returns the base itself exactly when the identifier
    is absent or empty, and otherwise the base, a hyphen and the
    identifier; the base is a prefix of every result. *)
Theorem getIdString_cases (base : string) (identifier : option string) :
  (truthy_string identifier = false -> getIdString base identifier = base)
  /\ (forall i,
         identifier = Some i -> i <> EmptyString ->
         getIdString base identifier = (base ++ "-" ++ i)%string)
  /\ (getIdString base identifier = base
      -> truthy_string identifier = false)
  /\ String.prefix base (getIdString base identifier) = true.
Proof.
  unfold getIdString.
  split; [| split; [| split]].
  - intros Hfalsy. rewrite Hfalsy. apply append_empty.
  - intros i -> Hi. simpl.
    replace (String.eqb i EmptyString) with false
      by (symmetry; apply String.eqb_neq; exact Hi).
    reflexivity.
  - intros Hsame.
    destruct (truthy_string identifier) eqn:Htruthy; [| reflexivity].
    destruct identifier as [i|]; [| discriminate Htruthy].
    apply (f_equal String.length) in Hsame.
    rewrite length_append in Hsame. simpl in Hsame. lia.
  - apply prefix_append.
Qed.

Lemma getIdString_cases_witness :
  getIdString "walktour" (Some EmptyString) = "walktour"%string
  /\ getIdString "walktour" (Some "step1"%string)
     = "walktour-step1"%string.
Proof.
  destruct (getIdString_cases "walktour" (Some EmptyString))
    as (Hempty & _).
  destruct (getIdString_cases "walktour" (Some "step1"%string))
    as (_ & Hid & _).
  split.
  - apply Hempty. reflexivity.
  - apply (Hid "step1"%string); [reflexivity | discriminate].
Defined.
